(** * pdfire: option resolution, render session and merge coordinator

    A shallow embedding of the Go package [pdfire]
    (conversion_options.go, merge_options.go and the converter) together
    with the properties the design document states about it.

    - float64 is Rocq's primitive binary64 float, so arithmetic, comparison
      and rounding are bit-exact;
    - Go strings are byte strings ([string] of [ascii]);
    - [map[string]interface{}] is a [gmap string json];
    - a Go function returning [(T, error)] returns a pair [T * option error]
      here, because the code sometimes uses the value next to a non-nil
      error;
    - calls into chromedp, pdfcpu, the file system and [strconv] are
      parameters of the development. *)

From Stdlib Require Import ZArith Floats String Ascii List Lia Permutation.
From stdpp Require Import gmap strings list.

Set Warnings "-inexact-float,-register-all".
Local Open Scope string_scope.
Local Open Scope Z_scope.

(** ** float64 *)

Module F64.

(** [math.Round]: nearest integer, halves away from zero; zeros,
    infinities and NaN are returned unchanged. *)
Definition Round (x : float) : float :=
  match Prim2SF x with
  | S754_finite s m e =>
      if (0 <=? e)%Z then x
      else
        let d := (2 ^ (- e))%Z in
        let q := (Z.pos m / d)%Z in
        let r := (Z.pos m mod d)%Z in
        let n := if (d <=? 2 * r)%Z then (q + 1)%Z else q in
        let a := PrimFloat.of_uint63 (Uint63.of_Z n) in
        if s then PrimFloat.opp a else a
  | _ => x
  end.

Definition int64_min : Z := - 2 ^ 63.
Definition int64_max : Z := 2 ^ 63 - 1.

(** Two's complement wrap-around of a mathematical integer to int64. *)
Definition wrap64 (z : Z) : Z := ((z + 2 ^ 63) mod 2 ^ 64) - 2 ^ 63.

(** The conversion [int64(v)] of a float64: truncation toward zero.  The
    Go specification leaves values outside int64 to the implementation;
    amd64 yields the minimal int64 there, which is what is written out. *)
Definition to_int64 (x : float) : Z :=
  match Prim2SF x with
  | S754_zero _ => 0
  | S754_finite s m e =>
      let a := if (0 <=? e)%Z then (Z.pos m * 2 ^ e)%Z
               else (Z.pos m / 2 ^ (- e))%Z in
      let v := if s then (- a)%Z else a in
      if ((int64_min <=? v) && (v <=? int64_max))%bool then v else int64_min
  | _ => int64_min
  end.

End F64.

(** ** Byte strings *)

Module Str.

Definition isUpper (c : ascii) : bool :=
  let n := nat_of_ascii c in ((65 <=? n) && (n <=? 90))%nat.

Definition isLower (c : ascii) : bool :=
  let n := nat_of_ascii c in ((97 <=? n) && (n <=? 122))%nat.

Definition isLetter (c : ascii) : bool := (isUpper c || isLower c)%bool.

Definition lowerByte (c : ascii) : ascii :=
  if isUpper c then ascii_of_nat (nat_of_ascii c + 32) else c.

(** [strings.ToLower] on the ASCII range.  The only place where the
    source lower-cases possibly non-ASCII input and then inspects it is a
    table lookup whose keys are ASCII. *)
Fixpoint ToLower (s : string) : string :=
  match s with
  | EmptyString => EmptyString
  | String c r => String (lowerByte c) (ToLower r)
  end.

(** [regexp.MustCompile("[a-zA-Z]+$").ReplaceAllString(s, "")]: the only
    match is the maximal run of letters that ends the text. *)
Fixpoint stripTrailingLetters (s : string) : string :=
  match s with
  | EmptyString => EmptyString
  | String c r =>
      match stripTrailingLetters r with
      | EmptyString => if isLetter c then EmptyString else String c EmptyString
      | r' => String c r'
      end
  end.

Definition isSpace (c : ascii) : bool := Ascii.eqb c " "%char.

Fixpoint trimLeft (s : string) : string :=
  match s with
  | String c r => if isSpace c then trimLeft r else s
  | EmptyString => EmptyString
  end.

Fixpoint trimRight (s : string) : string :=
  match s with
  | EmptyString => EmptyString
  | String c r =>
      match trimRight r with
      | EmptyString => if isSpace c then EmptyString else String c EmptyString
      | r' => String c r'
      end
  end.

(** [strings.Trim(s, " ")] *)
Definition Trim (s : string) : string := trimRight (trimLeft s).

(** [strings.Split(s, " ")]: one more field than there are spaces, so the
    result is never empty. *)
Fixpoint Split (s : string) : list string :=
  match s with
  | EmptyString => [EmptyString]
  | String c r =>
      if isSpace c then EmptyString :: Split r
      else match Split r with
           | t :: ts => String c t :: ts
           | [] => [String c EmptyString]
           end
  end.

(** [s[len(s)-2:]] and [s[0:len(s)-2]], for [len(s) >= 2]. *)
Definition lastTwo (s : string) : string :=
  substring (String.length s - 2) 2 s.
Definition dropLastTwo (s : string) : string :=
  substring 0 (String.length s - 2) s.

End Str.

(** ** Decoded JSON values ([interface{}] as produced by encoding/json) *)

Inductive json : Type :=
  | JNull
  | JBool (b : bool)
  | JNum (f : float)
  | JStr (s : string)
  | JArr (l : list json)
  | JObj (m : gmap string json).

Definition bytes := list ascii.

(** ** Errors *)

(** Errors raised by the collaborators (chromedp, pdfcpu, os, io). *)
Inductive ext_error : Type :=
  | DeadlineExceeded              (* context.DeadlineExceeded *)
  | Canceled                      (* context.Canceled *)
  | Failure (code : nat).         (* any other collaborator error *)

Inductive error : Type :=
  | ErrInvalidJSON
  | ErrNoSource
  | ErrTimeout
  | ErrWaitUntilTimeout
  | ErrNoBody
  | ParseError (Key : string) (Value : json)
  | ErrInvalidUnit                (* errors.New("invalid unit") *)
  | NumError (input : string)     (* *strconv.NumError from ParseFloat *)
  | External (e : ext_error).

Definition isParseError (e : error) : bool :=
  match e with ParseError _ _ => true | _ => false end.

(** ** Tables *)

Definition PaperFormats : list (string * (float * float)) :=
  [ ("letter", (8.5, 11)%float);
    ("legal", (8.5, 14)%float);
    ("tabloid", (11, 17)%float);
    ("ledger", (17, 11)%float);
    ("a0", (33.1, 46.8)%float);
    ("a1", (23.4, 33.1)%float);
    ("a2", (16.54, 23.4)%float);
    ("a3", (11.7, 16.54)%float);
    ("a4", (8.27, 11.7)%float);
    ("a5", (5.83, 8.27)%float);
    ("a6", (4.13, 5.83)%float) ].

Definition UnitToPixels : list (string * float) :=
  [ ("px", 1%float); ("in", 96%float); ("cm", 37.8%float); ("mm", 3.78%float) ].

(** Indexing a Go map literal: [v, ok := table[k]]. *)
Fixpoint tableGet {A} (t : list (string * A)) (k : string) : option A :=
  match t with
  | [] => None
  | (k', v) :: t' => if String.eqb k' k then Some v else tableGet t' k
  end.

Definition MediaScreen : string := "screen".
Definition MediaPrint : string := "print".

(** ** Option records *)

Record WatermarkConfig := {
  Query : string;
  OnTop : bool;
  Pages : list string
}.

(** [page.PrintToPDFParams] of cdproto, with the fields the package sets. *)
Record PrintToPDFParams := {
  Landscape : bool;
  DisplayHeaderFooter : bool;
  PrintBackground : bool;
  Scale : float;
  PaperWidth : float;
  PaperHeight : float;
  MarginTop : float;
  MarginBottom : float;
  MarginLeft : float;
  MarginRight : float;
  PageRanges : string;
  IgnoreInvalidPageRanges : bool;
  HeaderTemplate : string;
  FooterTemplate : string;
  PreferCSSPageSize : bool
}.

Record ConversionOptions := {
  HTML : string;
  URL : string;
  PDFParams : PrintToPDFParams;
  ViewportWidth : Z;
  ViewportHeight : Z;
  BlockAds : bool;
  Selector : string;
  WaitForSelector : string;
  WaitForSelectorTimeout : Z;       (* time.Duration, nanoseconds *)
  WaitUntil : string;
  WaitUntilTimeout : Z;
  Delay : Z;
  Timeout : Z;
  Headers : gmap string json;
  EmulateMedia : string;
  OwnerPassword : string;
  UserPassword : string;
  Watermark : option WatermarkConfig
}.

Record MergeOptions := {
  Documents : list ConversionOptions;
  MergeOwnerPassword : string;
  MergeUserPassword : string;
  MergeWatermark : option WatermarkConfig
}.

Definition Millisecond : Z := 1000000.

Definition NewConversionOptions : ConversionOptions := {|
  HTML := "";
  URL := "";
  PDFParams := {|
    Landscape := false;
    DisplayHeaderFooter := false;
    PrintBackground := true;
    Scale := 1.0%float;
    PaperWidth := 8.5%float;
    PaperHeight := 11.0%float;
    MarginTop := 0.4%float;
    MarginBottom := 0.4%float;
    MarginLeft := 0.4%float;
    MarginRight := 0.4%float;
    PageRanges := "";
    IgnoreInvalidPageRanges := false;
    HeaderTemplate := "";
    FooterTemplate := "";
    PreferCSSPageSize := false |};
  ViewportWidth := 1920;
  ViewportHeight := 1080;
  BlockAds := false;
  Selector := "";
  WaitForSelector := "";
  WaitForSelectorTimeout := 0;
  WaitUntil := "load";
  WaitUntilTimeout := 0;
  Delay := 0;
  Timeout := 0;
  Headers := ∅;
  EmulateMedia := MediaScreen;
  OwnerPassword := "";
  UserPassword := "";
  Watermark := None |}.

Definition NewMergeOptions : MergeOptions := {|
  Documents := [];
  MergeOwnerPassword := "";
  MergeUserPassword := "";
  MergeWatermark := None |}.

(** ** OptionsResolver (conversion_options.go, merge_options.go) *)

Definition margins : Type := (float * float * float * float)%type.

(** [x, err := e; if err != nil { return nil, err }; k x] *)
Notation "x <~ e ; k" :=
  (match e with
   | (x, None) => k
   | (_, Some err) => (None, Some err)
   end)
  (at level 200, e at level 100, k at level 200, right associativity,
   only parsing).

Section Resolver.

(** [strconv.ParseFloat(s, 64)]; [None] stands for a non-nil error. *)
Variable ParseFloat : string -> option float.

Definition parseBool (jsonMap : gmap string json) (key : string) (def : bool)
  : bool * option error :=
  match jsonMap !! key with
  | None => (def, None)
  | Some (JBool v) => (v, None)
  | Some value => (false, Some (ParseError key value))
  end.

Definition parseInt64 (jsonMap : gmap string json) (key : string) (def : Z)
  : Z * option error :=
  match jsonMap !! key with
  | None => (def, None)
  | Some (JNum v) => (F64.to_int64 v, None)
  | Some value => (0, Some (ParseError key value))
  end.

Definition parseFloat64 (jsonMap : gmap string json) (key : string) (def : float)
  : float * option error :=
  match jsonMap !! key with
  | None => (def, None)
  | Some (JNum v) => (v, None)
  | Some value => (0%float, Some (ParseError key value))
  end.

(** The default is not passed on: the inner call uses 0. *)
Definition parseDuration (jsonMap : gmap string json) (key : string) (def : Z)
  : Z * option error :=
  match parseInt64 jsonMap key 0 with
  | (_, Some err) => (0, Some err)
  | (val, None) =>
      let val := if val <? 0 then 0 else val in
      (F64.wrap64 (val * Millisecond), None)
  end.

Definition parseString (jsonMap : gmap string json) (key def : string)
  : string * option error :=
  match jsonMap !! key with
  | None => (def, None)
  | Some (JStr v) => (v, None)
  | Some value => ("", Some (ParseError key value))
  end.

Definition parseStringOnly (jsonMap : gmap string json) (key def : string)
    (allowed : list string) : string * option error :=
  match parseString jsonMap key def with
  | (param, Some err) => (param, Some err)
  | (param, None) =>
      if existsb (fun a => String.eqb a param) allowed then (param, None)
      else (def, Some (ParseError key (JStr param)))
  end.

Definition pixelToInch (pixel : float) : float :=
  (F64.Round ((pixel * 100) / 96) / 100)%float.

(** When the last two bytes are no unit, [unit] is reset to "px" but
    [unitPixels] keeps the zero value of the failed lookup. *)
Definition stringToInch (raw : string) : float * option error :=
  if (String.length raw <? 2)%nat then (0%float, Some ErrInvalidUnit)
  else
    let unit := Str.ToLower (Str.lastTwo raw) in
    let '(unitPixels, ok) :=
      match tableGet UnitToPixels unit with
      | Some r => (r, true)
      | None => (0%float, false)
      end in
    let valueText := if ok then Str.dropLastTwo raw else raw in
    let valueText := Str.stripTrailingLetters valueText in
    match ParseFloat valueText with
    | None => (0%float, Some (NumError valueText))
    | Some value => (pixelToInch (value * unitPixels), None)
    end.

Definition parseUnit (jsonMap : gmap string json) (key : string) (def : float)
  : float * option error :=
  match jsonMap !! key with
  | None => (def, None)
  | Some (JNum fval) => ((fval / 96)%float, None)
  | Some (JStr sval) =>
      match stringToInch sval with
      | (_, Some _) => (0%float, Some (ParseError key (JStr sval)))
      | (inch, None) => (inch, None)
      end
  | Some _ => (0%float, Some (ParseError key (JStr "")))
  end.

Definition parseMarginsFrom (raw : string) : margins * option error :=
  let z := 0%float in
  match Str.Split (Str.Trim raw) with
  | [] => ((z, z, z, z), Some (ParseError "margin" (JStr raw)))
  | v0 :: vs =>
      match stringToInch v0 with
      | (_, Some err) => ((z, z, z, z), Some err)
      | (mt, None) =>
          match vs with
          | [] => ((mt, mt, mt, mt), None)
          | v1 :: vs =>
              match stringToInch v1 with
              | (_, Some err) => ((z, z, z, z), Some err)
              | (mr, None) =>
                  match vs with
                  | [] => ((mt, mr, mt, mr), None)
                  | v2 :: vs =>
                      match stringToInch v2 with
                      | (_, Some err) => ((z, z, z, z), Some err)
                      | (mb, None) =>
                          match vs with
                          | [] => ((mt, mr, mb, mr), None)
                          | v3 :: _ =>
                              match stringToInch v3 with
                              | (_, Some err) => ((z, z, z, z), Some err)
                              | (ml, None) => ((mt, mr, mb, ml), None)
                              end
                          end
                      end
                  end
              end
          end
      end
  end.

(** First a numeric [margin] above the sentinel -1, then a non-empty
    string [margin], then the four individual fields; there an error
    returns the sides read so far next to it, the failing one being 0. *)
Definition parseMargins (jsonMap : gmap string json) : margins * option error :=
  let z := 0%float in
  let numeric :=
    match parseFloat64 jsonMap "margin" (-1)%float with
    | (margin, None) => if PrimFloat.ltb (-1)%float margin then Some margin else None
    | (_, Some _) => None
    end in
  match numeric with
  | Some margin => let m := pixelToInch margin in ((m, m, m, m), None)
  | None =>
  let shorthand :=
    match parseString jsonMap "margin" "" with
    | (margin, None) => if String.eqb margin "" then None else Some margin
    | (_, Some _) => None
    end in
  match shorthand with
  | Some margin => parseMarginsFrom margin
  | None =>
  match parseUnit jsonMap "marginTop" 0.4%float with
  | (marginTop, Some err) => ((marginTop, z, z, z), Some err)
  | (marginTop, None) =>
  match parseUnit jsonMap "marginRight" 0.4%float with
  | (marginRight, Some err) => ((marginTop, marginRight, z, z), Some err)
  | (marginRight, None) =>
  match parseUnit jsonMap "marginBottom" 0.4%float with
  | (marginBottom, Some err) => ((marginTop, marginRight, marginBottom, z), Some err)
  | (marginBottom, None) =>
  match parseUnit jsonMap "marginLeft" 0.4%float with
  | (_, Some err) => ((marginTop, marginRight, marginBottom, z), Some err)
  | (marginLeft, None) => ((marginTop, marginRight, marginBottom, marginLeft), None)
  end end end end end end.

Definition nudge (v : float) : float :=
  if PrimFloat.eqb v 0%float then 0.00000001%float else v.

Definition parseMarginsFix (jsonMap : gmap string json) : margins * option error :=
  match parseMargins jsonMap with
  | (m, Some err) => (m, Some err)
  | ((mt, mr, mb, ml), None) => ((nudge mt, nudge mr, nudge mb, nudge ml), None)
  end.

Definition parseHeaders (jsonMap : gmap string json)
  : gmap string json * option error :=
  match jsonMap !! "headers" with
  | None => (∅, None)
  | Some (JObj headers) => (headers, None)
  | Some raw => (∅, Some (ParseError "headers" raw))
  end.

Definition parseEmulateMedia (jsonMap : gmap string json) (def : string)
  : string * option error :=
  match jsonMap !! "emulateMedia" with
  | None => (def, None)
  | Some (JStr val) =>
      if (negb (String.eqb val MediaScreen) && negb (String.eqb val MediaPrint))%bool
      then (def, Some (ParseError "emulateMedia" (JStr val)))
      else (val, None)
  | Some raw => (def, Some (ParseError "emulateMedia" raw))
  end.

(** [json.NewDecoder(r).Decode(&jsonMap)] on a request body.  [None] is a
    body that is not JSON text; a JSON null leaves the map empty, any
    other non-object value cannot be stored into a map. *)
Definition decodeMap (body : option json) : option (gmap string json) :=
  match body with
  | Some (JObj m) => Some m
  | Some JNull => Some ∅
  | _ => None
  end.

(** The format preset; a [format] that is not a string is ignored. *)
Definition applyFormat (jsonMap : gmap string json) (wh : float * float)
  : float * float :=
  match parseString jsonMap "format" "" with
  | (format, None) =>
      match tableGet PaperFormats (Str.ToLower format) with
      | Some f => f
      | None => wh
      end
  | (_, Some _) => wh
  end.

(** The body of [NewConversionOptionsFromJSON] after decoding.  The error
    of [parseMarginsFix] is assigned to [err] and overwritten by the next
    statement without being tested. *)
Definition resolve (jsonMap : gmap string json)
  : option ConversionOptions * option error :=
  let options := NewConversionOptions in
  html <~ parseString jsonMap "html" "";
  url <~ parseString jsonMap "url" "";
  landscape <~ parseBool jsonMap "landscape" false;
  displayHeaderFooter <~ parseBool jsonMap "displayHeaderFooter" false;
  printBackground <~ parseBool jsonMap "printBackground" true;
  scale <~ parseFloat64 jsonMap "scale" 1.0%float;
  paperWidth <~ parseUnit jsonMap "paperWidth" (PaperWidth (PDFParams options));
  paperHeight <~ parseUnit jsonMap "paperHeight" (PaperHeight (PDFParams options));
  let '(paperWidth, paperHeight) := applyFormat jsonMap (paperWidth, paperHeight) in
  let '((marginTop, marginRight, marginBottom, marginLeft), _) :=
    parseMarginsFix jsonMap in
  pageRanges <~ parseString jsonMap "pageRanges" "";
  headerTemplate <~ parseString jsonMap "headerTemplate" "";
  footerTemplate <~ parseString jsonMap "footerTemplate" "";
  preferCSSPageSize <~ parseBool jsonMap "preferCSSPageSize" false;
  viewportWidth <~ parseInt64 jsonMap "viewportWidth" 1920;
  viewportHeight <~ parseInt64 jsonMap "viewportHeight" 1080;
  blockAds <~ parseBool jsonMap "blockAds" false;
  selector <~ parseString jsonMap "selector" "";
  waitForSelector <~ parseString jsonMap "waitForSelector" "";
  waitForSelectorTimeout <~ parseDuration jsonMap "waitForSelectorTimeout" 0;
  waitUntil <~ parseStringOnly jsonMap "waitUntil" "load" ["load"; "dom"];
  waitUntilTimeout <~ parseDuration jsonMap "waitUntilTimeout" 0;
  delay <~ parseDuration jsonMap "delay" 0;
  timeout <~ parseDuration jsonMap "timeout" 0;
  headers <~ parseHeaders jsonMap;
  emulateMedia <~ parseEmulateMedia jsonMap MediaScreen;
  ownerPassword <~ parseString jsonMap "ownerPassword" "";
  userPassword <~ parseString jsonMap "userPassword" "";
  (Some {|
     HTML := html;
     URL := url;
     PDFParams := {|
       Landscape := landscape;
       DisplayHeaderFooter := displayHeaderFooter;
       PrintBackground := printBackground;
       Scale := scale;
       PaperWidth := paperWidth;
       PaperHeight := paperHeight;
       MarginTop := marginTop;
       MarginBottom := marginBottom;
       MarginLeft := marginLeft;
       MarginRight := marginRight;
       PageRanges := pageRanges;
       IgnoreInvalidPageRanges := IgnoreInvalidPageRanges (PDFParams options);
       HeaderTemplate := headerTemplate;
       FooterTemplate := footerTemplate;
       PreferCSSPageSize := preferCSSPageSize |};
     ViewportWidth := viewportWidth;
     ViewportHeight := viewportHeight;
     BlockAds := blockAds;
     Selector := selector;
     WaitForSelector := waitForSelector;
     WaitForSelectorTimeout := waitForSelectorTimeout;
     WaitUntil := waitUntil;
     WaitUntilTimeout := waitUntilTimeout;
     Delay := delay;
     Timeout := timeout;
     Headers := headers;
     EmulateMedia := emulateMedia;
     OwnerPassword := ownerPassword;
     UserPassword := userPassword;
     Watermark := Watermark options |}, None).

Definition NewConversionOptionsFromJSON (body : option json)
  : option ConversionOptions * option error :=
  match decodeMap body with
  | None => (None, Some ErrInvalidJSON)
  | Some jsonMap => resolve jsonMap
  end.

(** The two assignments that [NewMergeOptionsFromJSON] and [Merge] make
    on every document. *)
Definition clearPasswords (o : ConversionOptions) : ConversionOptions := {|
  HTML := HTML o;
  URL := URL o;
  PDFParams := PDFParams o;
  ViewportWidth := ViewportWidth o;
  ViewportHeight := ViewportHeight o;
  BlockAds := BlockAds o;
  Selector := Selector o;
  WaitForSelector := WaitForSelector o;
  WaitForSelectorTimeout := WaitForSelectorTimeout o;
  WaitUntil := WaitUntil o;
  WaitUntilTimeout := WaitUntilTimeout o;
  Delay := Delay o;
  Timeout := Timeout o;
  Headers := Headers o;
  EmulateMedia := EmulateMedia o;
  OwnerPassword := "";
  UserPassword := "";
  Watermark := Watermark o |}.

(** The loop over [docdata]: every element is marshalled again and
    resolved as a request of its own; the first error ends the loop. *)
Fixpoint resolveDocuments (docdata : list json)
  : option (list ConversionOptions) * option error :=
  match docdata with
  | [] => (Some [], None)
  | data :: rest =>
      match NewConversionOptionsFromJSON (Some data) with
      | (Some options, None) =>
          match resolveDocuments rest with
          | (Some docoptions, None) =>
              (Some (clearPasswords options :: docoptions), None)
          | (_, err) => (None, err)
          end
      | (_, err) => (None, err)
      end
  end.

Definition NewMergeOptionsFromJSON (body : option json)
  : option MergeOptions * option error :=
  match decodeMap body with
  | None => (None, Some ErrInvalidJSON)
  | Some jsonMap =>
      match jsonMap !! "documents" with
      | None => (None, Some (ParseError "documents" JNull))
      | Some (JArr docdata) =>
          match resolveDocuments docdata with
          | (Some docoptions, None) =>
              ownerPassword <~ parseString jsonMap "ownerPassword" "";
              userPassword <~ parseString jsonMap "userPassword" "";
              (Some {| Documents := docoptions;
                       MergeOwnerPassword := ownerPassword;
                       MergeUserPassword := userPassword;
                       MergeWatermark := None |}, None)
          | (_, err) => (None, err)
          end
      | Some data => (None, Some (ParseError "documents" data))
      end
  end.

End Resolver.

(** ** RenderSession and PostProcessor (the converter) *)

(** A [context.Context] as the code derives it from the caller's one. *)
Inductive Context : Type :=
  | Caller
  | WithCancel (parent : Context)
  | WithTimeout (parent : Context) (d : Z)
  | NewContext (parent : Context).        (* chromedp.NewContext *)

(** Collaborator calls that may fail, with the arguments the code passes
    and the type of what they return. *)
Inductive Call : Type -> Type :=
  | Allocate (ctx : Context) : Call unit  (* chromedp.Run acquiring its target *)
  | SetDeviceMetricsOverride (ctx : Context) (width height : Z)
      (deviceScaleFactor : float) (mobile : bool) : Call unit
  | SetAdBlockingEnabled (ctx : Context) (enabled : bool) : Call unit
  | NetworkEnable (ctx : Context) : Call unit
  | SetExtraHTTPHeaders (ctx : Context) (headers : gmap string json) : Call unit
  | SetEmulatedMedia (ctx : Context) (media : string) : Call unit
  | Navigate (ctx : Context) (url : string) : Call unit
  | WaitReady (ctx : Context) (sel : string) : Call unit
  | OuterHTML (ctx : Context) (sel : string) : Call string
  | Nodes (ctx : Context) (sel : string) : Call (list Z)
  | SetOuterHTML (ctx : Context) (node : Z) (html : string) : Call unit
  | PrintToPDF (ctx : Context) (params : PrintToPDFParams) : Call bytes
  | CreateFile (name : string) : Call unit
  | RemoveFile (name : string) : Call unit
  | ParseWatermarkDetails (query : string) (onTop : bool) : Call string
  | AddWatermarks (pdf : bytes) (pages : list string) (wm : string) : Call bytes
  | OptimizeEncrypt (pdf : bytes) (userPw ownerPw : string) (keyLength : Z) : Call bytes
  | PdfMerge (parts : list bytes) : Call bytes.

(** Operations that return no error to the code: channel receives, timers,
    and calls whose error the code drops. *)
Inductive Wait : Type -> Type :=
  | ListenTarget (ctx : Context) (waitUntil : string) : Wait unit
  | RecvWaiter : Wait unit                          (* <-waiter *)
  | RecvWaiterTimeout (d : Z) : Wait bool           (* <-waiterTimeout(waiter, d) *)
  | After (d : Z) : Wait unit                       (* <-time.After(d) *)
  | NewUUID : Wait string
  | WriteFile (name : string) (content : string) : Wait unit.

Definition htmlFileName (id : string) : string :=
  "pdfire/tmp/html/" ++ id ++ ".html".

Section Session.

(** The state of everything outside the package, and how it answers. *)
Variable World : Type.
Variable ask : forall R, Call R -> World -> (ext_error + R) * World.
Variable wait : forall R, Wait R -> World -> R * World.

Definition M (A : Type) : Type := World -> (error + A) * World.

Definition ret {A} (a : A) : M A := fun w => (inr a, w).
Definition fail {A} (e : error) : M A := fun w => (inl e, w).
Definition bind {A B} (m : M A) (k : A -> M B) : M B :=
  fun w => match m w with
           | (inl e, w') => (inl e, w')
           | (inr a, w') => k a w'
           end.
Definition call {R} (c : Call R) : M R :=
  fun w => match ask R c w with
           | (inl e, w') => (inl (External e), w')
           | (inr r, w') => (inr r, w')
           end.
Definition await {R} (c : Wait R) : M R :=
  fun w => let '(r, w') := wait R c w in (inr r, w').

Notation "'let*' x ':=' m 'in' k" := (bind m (fun x => k))
  (at level 10, x name, m at level 100, k at level 200).
Notation "m >> k" := (bind m (fun _ => k))
  (at level 100, k at level 200, right associativity).

Definition conversionContext (ctx : Context) (options : ConversionOptions)
  : Context :=
  if Timeout options =? 0 then WithCancel ctx
  else WithTimeout ctx (Timeout options).

Definition beforeNavigation (options : ConversionOptions) (ctx : Context)
  : M unit :=
  call (SetDeviceMetricsOverride ctx (ViewportWidth options)
          (ViewportHeight options) 1%float false) >>
  call (SetAdBlockingEnabled ctx (BlockAds options)) >>
  call (NetworkEnable ctx) >>
  call (SetExtraHTTPHeaders ctx (Headers options)) >>
  call (SetEmulatedMedia ctx (EmulateMedia options)) >>
  await (ListenTarget ctx (WaitUntil options)).

(** The context [afterNavigation] hands to [chromedp.WaitReady]. *)
Definition selectorContext (options : ConversionOptions) (ctx : Context)
  : Context :=
  if 0 <? WaitForSelectorTimeout options then WithCancel ctx
  else WithTimeout ctx (F64.wrap64 (WaitForSelectorTimeout options * Millisecond)).

Definition afterNavigation (options : ConversionOptions) (ctx : Context)
  : M unit :=
  (if String.eqb (WaitForSelector options) "" then ret tt
   else call (WaitReady (selectorContext options ctx) (WaitForSelector options))) >>
  (if 0 <? WaitUntilTimeout options then
     let* ok := await (RecvWaiterTimeout
                    (F64.wrap64 (WaitUntilTimeout options * Millisecond))) in
     if ok : bool then ret tt else fail ErrWaitUntilTimeout
   else await RecvWaiter) >>
  (if 0 <? Delay options then await (After (Delay options)) else ret tt) >>
  if String.eqb (Selector options) "" then ret tt
  else
    let* elhtml := call (OuterHTML ctx (Selector options)) in
    let* nodes := call (Nodes ctx "body") in
    match nodes with
    | [] => ret tt                     (* [return err] with a nil [err] *)
    | body :: _ =>
        call (SetOuterHTML ctx body ("<body>" ++ elhtml ++ "</body>"))
    end.

Definition printToPDFAction (options : ConversionOptions) (ctx : Context)
  : M bytes :=
  call (PrintToPDF ctx (PDFParams options)).

(** [chromedp.Run] over the four actions, then the test for
    [context.DeadlineExceeded]. *)
Definition runActions (ctx : Context) (options : ConversionOptions)
    (target : string) : M bytes :=
  fun w =>
    match (call (Allocate ctx) >>
           beforeNavigation options ctx >>
           call (Navigate ctx target) >>
           afterNavigation options ctx >>
           printToPDFAction options ctx) w with
    | (inl (External DeadlineExceeded), w') => (inl ErrTimeout, w')
    | r => r
    end.

Definition secure (buf : bytes) (ownerPw userPw : string) : M bytes :=
  if (String.eqb ownerPw "" && String.eqb userPw "")%bool then ret buf
  else call (OptimizeEncrypt buf userPw ownerPw 256).

Definition watermark (buf : bytes) (config : WatermarkConfig) : M bytes :=
  let* wm := call (ParseWatermarkDetails (Query config) (OnTop config)) in
  call (AddWatermarks buf (Pages config) wm).

Definition postprocess (buf : bytes) (options : ConversionOptions) : M bytes :=
  let* buf := match Watermark options with
         | Some config => watermark buf config
         | None => ret buf
         end in
  secure buf (OwnerPassword options) (UserPassword options).

(** What the functions below return is what they copy into [w]; both
    callers in the repository pass a [bytes.Buffer]. *)
Definition ConvertHTML (ctx : Context) (options : ConversionOptions) : M bytes :=
  let ctx := NewContext (conversionContext ctx options) in
  let* id := await NewUUID in
  call (CreateFile (htmlFileName id)) >>
  await (WriteFile (htmlFileName id) (HTML options)) >>
  let* buf := runActions ctx options ("file://" ++ htmlFileName id) in
  call (RemoveFile (htmlFileName id)) >>
  postprocess buf options.

Definition ConvertURL (ctx : Context) (options : ConversionOptions) : M bytes :=
  let ctx := NewContext (conversionContext ctx options) in
  let* buf := runActions ctx options (URL options) in
  postprocess buf options.

Definition Convert (ctx : Context) (options : ConversionOptions) : M bytes :=
  if String.eqb (URL options) "" then ConvertHTML ctx options
  else ConvertURL ctx options.

(** The tail of [mergeDocs], once every part is collected. *)
Definition assemble (options : MergeOptions) (parts : list bytes) : M bytes :=
  let* merged := call (PdfMerge parts) in
  secure merged (MergeOwnerPassword options) (MergeUserPassword options).

End Session.

(** ** MergeCoordinator ([Merge], [forMerge], [mergeDocs]) *)

(** What travels on the channel [cres]. *)
Record result := { index : nat; buf : bytes }.

(** Where a [forMerge] goroutine stands. *)
Inductive pc : Type :=
  | Converting          (* has not yet returned from [Convert] *)
  | Reported            (* has sent its error on [cerr], not yet its result *)
  | Finished.

(** Where [mergeDocs] stands. *)
Inductive phase : Type :=
  | Collecting
  | Returned (e : error)          (* left the loop through a return statement *)
  | Merging (parts : list bytes)  (* reached [api.Merge] with these readers *)
  | Panicked.                     (* index out of range or nil buffer *)

Inductive selectCase : Type := OnErr | OnRes | OnDone.

(** One scheduling decision. *)
Inductive event : Type :=
  | Advance (i : nat)             (* goroutine [i] runs up to its next send *)
  | Iterate (sel : selectCase).   (* [mergeDocs] runs one turn of its loop *)

Record state := {
  tasks : list pc;
  cres : list result;             (* buffered channels, oldest first *)
  cerr : list error;
  bufs : list (option bytes);     (* [None] is a nil pointer *)
  c : nat;
  at_ : phase
}.

(** How many slots of [bufs] are not nil. *)
Fixpoint filled (bs : list (option bytes)) : nat :=
  match bs with
  | [] => 0%nat
  | Some _ :: r => S (filled r)
  | None :: r => filled r
  end.

Section Coordinator.

Variable World : Type.
Variable ask : forall R, Call R -> World -> (ext_error + R) * World.
Variable wait : forall R, Wait R -> World -> R * World.

(** The caller's context, the options handed to [Merge], and the world
    each document's session finds. *)
Variable ctx : Context.
Variable options : MergeOptions.
Variable session : nat -> World.

(** The first loop of [Merge]. *)
Definition documents : list ConversionOptions :=
  map clearPasswords (Documents options).

Definition capacity : nat := length documents.

(** [forMerge] up to the point where it has returned from [Convert]:
    the error, if any, and the buffer it will send. *)
Definition converted (i : nat) (o : ConversionOptions) : option error * result :=
  match fst (Convert World ask wait ctx o (session i)) with
  | inl err => (Some err, {| index := i; buf := [] |})
  | inr pdf => (None, {| index := i; buf := pdf |})
  end.

(** [Merge] up to its call of [mergeDocs]: the documents are cleared, the
    two channels are made with room for one message per document, and one
    goroutine per document is started. *)
Definition Merge : state := {|
  tasks := replicate capacity Converting;
  cres := [];
  cerr := [];
  bufs := replicate capacity None;
  c := 0;
  at_ := Collecting |}.

Definition sendRes (r : result) (i : nat) (st : state) : option state :=
  if (length (cres st) <? capacity)%nat then
    Some {| tasks := <[i := Finished]> (tasks st);
            cres := cres st ++ [r];
            cerr := cerr st;
            bufs := bufs st; c := c st; at_ := at_ st |}
  else None.

Definition sendErr (e : error) (i : nat) (st : state) : option state :=
  if (length (cerr st) <? capacity)%nat then
    Some {| tasks := <[i := Reported]> (tasks st);
            cres := cres st;
            cerr := cerr st ++ [e];
            bufs := bufs st; c := c st; at_ := at_ st |}
  else None.

(** [forMerge] for document [i], up to its next send: there is no return
    after [cerr <- err], so a failed conversion sends its result as well.
    [None] when the goroutine has ended or the channel is full. *)
Definition forMerge (i : nat) (st : state) : option state :=
  match tasks st !! i, documents !! i with
  | Some Converting, Some o =>
      match converted i o with
      | (Some err, _) => sendErr err i st
      | (None, r) => sendRes r i st
      end
  | Some Reported, Some o => sendRes (snd (converted i o)) i st
  | _, _ => None
  end.

Definition leave (p : phase) (st : state) : state :=
  {| tasks := tasks st; cres := cres st; cerr := cerr st;
     bufs := bufs st; c := c st; at_ := p |}.

(** Leaving the loop: every buffer is dereferenced to build the readers. *)
Definition readers (bs : list (option bytes)) : phase :=
  match mapM id bs with
  | Some parts => Merging parts
  | None => Panicked
  end.

(** One turn of the loop of [mergeDocs]: the test of [c], then the select.
    [None] when the chosen case cannot proceed; the case on [ctx.Done()]
    can, as soon as the caller cancels. *)
Definition mergeDocs (sel : selectCase) (st : state) : option state :=
  match at_ st with
  | Collecting =>
      if (c st =? length (bufs st))%nat then Some (leave (readers (bufs st)) st)
      else
        match sel with
        | OnErr =>
            match cerr st with
            | err :: rest =>
                Some {| tasks := tasks st; cres := cres st; cerr := rest;
                        bufs := bufs st; c := c st; at_ := Returned err |}
            | [] => None
            end
        | OnRes =>
            match cres st with
            | res :: rest =>
                if (index res <? length (bufs st))%nat then
                  Some {| tasks := tasks st; cres := rest; cerr := cerr st;
                          bufs := <[index res := Some (buf res)]> (bufs st);
                          c := S (c st); at_ := Collecting |}
                else
                  Some {| tasks := tasks st; cres := rest; cerr := cerr st;
                          bufs := bufs st; c := c st; at_ := Panicked |}
            | [] => None
            end
        | OnDone => Some (leave (Returned ErrTimeout) st)
        end
  | _ => None
  end.

Definition step (ev : event) (st : state) : option state :=
  match ev with
  | Advance i => forMerge i st
  | Iterate sel => mergeDocs sel st
  end.

Fixpoint run (sched : list event) (st : state) : option state :=
  match sched with
  | [] => Some st
  | ev :: rest =>
      match step ev st with
      | Some st' => run rest st'
      | None => None
      end
  end.

(** The buffer [forMerge] creates for document [i]. *)
Definition part (i : nat) : bytes :=
  match documents !! i with
  | Some o => buf (snd (converted i o))
  | None => []
  end.

Definition failed (i : nat) : bool :=
  match documents !! i with
  | Some o => match fst (converted i o) with Some _ => true | None => false end
  | None => false
  end.

(** What holds in every state the coordinator and its goroutines reach. *)
Record inv (st : state) : Prop := {
  inv_tasks : length (tasks st) = capacity;
  inv_bufs : length (bufs st) = capacity;
  inv_cres : forall r, r ∈ cres st ->
    buf r = part (index r) /\
    bufs st !! index r = Some None /\
    tasks st !! index r = Some Finished;
  inv_nodup : NoDup (index <$> cres st);
  inv_slot : forall i b, bufs st !! i = Some (Some b) ->
    b = part i /\ tasks st !! i = Some Finished;
  inv_count : c st = filled (bufs st);
  inv_at : match at_ st with
           | Merging parts => parts = map part (seq 0 capacity)
           | Panicked => False
           | _ => True
           end
}.

(** The events that take the goroutines of [order] to their end, one
    goroutine after the other. *)
Definition completion (order : list nat) : list event :=
  flat_map (fun i => if failed i then [Advance i; Advance i] else [Advance i])
    order.

End Coordinator.

(** ** Instances of the parameters, to run the model on concrete requests *)

(** [strconv.ParseFloat] on plain decimal numerals: an optional sign,
    digits, an optional fraction.  With at most 2^53 as digit string and at
    most 22 fraction digits the single division below is correctly
    rounded; longer numerals are reported as errors here. *)
Module Decimal.

Definition digit (ch : ascii) : option Z :=
  let n := nat_of_ascii ch in
  if ((48 <=? n) && (n <=? 57))%nat then Some (Z.of_nat n - 48) else None.

(** Reads digits; returns the number read so far, how many digits were
    read, and the rest. *)
Fixpoint digits (s : string) (acc : Z) (n : nat) : Z * nat * string :=
  match s with
  | String ch r =>
      match digit ch with
      | Some d => digits r (10 * acc + d) (S n)
      | None => (acc, n, s)
      end
  | EmptyString => (acc, n, s)
  end.

Definition unsigned (s : string) : option float :=
  let '(ip, ni, r) := digits s 0 0 in
  let '(all, nf, r) :=
    match r with
    | String "."%char r' =>
        let '(all, n, r'') := digits r' ip ni in (all, (n - ni)%nat, r'')
    | _ => (ip, 0%nat, r)
    end in
  match r with
  | EmptyString =>
      if ((0 <? ni + nf)%nat && (all <? 2 ^ 53) && (nf <=? 22)%nat)%bool then
        Some (PrimFloat.of_uint63 (Uint63.of_Z all)
              / PrimFloat.of_uint63 (Uint63.of_Z (10 ^ Z.of_nat nf)))%float
      else None
  | _ => None
  end.

Definition ParseFloat (s : string) : option float :=
  match s with
  | String "-"%char r => option_map PrimFloat.opp (unsigned r)
  | String "+"%char r => unsigned r
  | _ => unsigned s
  end.

End Decimal.

(** A browser and PDF engine that always answer: a page prints as its
    address, one host is unreachable, merging concatenates, watermarking
    and encryption leave the bytes alone.  Every fallible call is logged. *)
Module Replay.

Record World := { location : string; log : list { R : Type & Call R } }.

Definition unreachable : string := "http://unreachable.invalid".

Definition answer {R} (cl : Call R) (w : World) : ext_error + R :=
  match cl in Call R return ext_error + R with
  | Allocate _ => inr tt
  | SetDeviceMetricsOverride _ _ _ _ _ => inr tt
  | SetAdBlockingEnabled _ _ => inr tt
  | NetworkEnable _ => inr tt
  | SetExtraHTTPHeaders _ _ => inr tt
  | SetEmulatedMedia _ _ => inr tt
  | Navigate _ url => if String.eqb url unreachable then inl (Failure 1) else inr tt
  | WaitReady _ _ => inr tt
  | OuterHTML _ _ => inr "<p></p>"
  | Nodes _ _ => inr [1]
  | SetOuterHTML _ _ _ => inr tt
  | PrintToPDF _ _ => inr (list_ascii_of_string (location w))
  | CreateFile _ => inr tt
  | RemoveFile _ => inr tt
  | ParseWatermarkDetails query _ => inr query
  | AddWatermarks pdf _ _ => inr pdf
  | OptimizeEncrypt pdf _ _ _ => inr pdf
  | PdfMerge parts => inr (concat parts)
  end.

Definition move {R} (cl : Call R) (w : World) : string :=
  match cl with
  | Navigate _ url => url
  | _ => location w
  end.

Definition ask (R : Type) (cl : Call R) (w : World) : (ext_error + R) * World :=
  (answer cl w, {| location := move cl w; log := log w ++ [existT R cl] |}).

Definition wait (R : Type) (op : Wait R) (w : World) : R * World :=
  (match op in Wait R return R with
   | ListenTarget _ _ => tt
   | RecvWaiter => tt
   | RecvWaiterTimeout _ => true
   | After _ => tt
   | NewUUID => "6ba7b810"
   | WriteFile _ _ => tt
   end, w).

Definition blank : World := {| location := "about:blank"; log := [] |}.

End Replay.

(** [o] with another HTML text. *)
Definition withHTML (html : string) (o : ConversionOptions) : ConversionOptions := {|
  HTML := html;
  URL := URL o;
  PDFParams := PDFParams o;
  ViewportWidth := ViewportWidth o;
  ViewportHeight := ViewportHeight o;
  BlockAds := BlockAds o;
  Selector := Selector o;
  WaitForSelector := WaitForSelector o;
  WaitForSelectorTimeout := WaitForSelectorTimeout o;
  WaitUntil := WaitUntil o;
  WaitUntilTimeout := WaitUntilTimeout o;
  Delay := Delay o;
  Timeout := Timeout o;
  Headers := Headers o;
  EmulateMedia := EmulateMedia o;
  OwnerPassword := OwnerPassword o;
  UserPassword := UserPassword o;
  Watermark := Watermark o |}.

Definition withURL (url : string) (o : ConversionOptions) : ConversionOptions := {|
  HTML := HTML o;
  URL := url;
  PDFParams := PDFParams o;
  ViewportWidth := ViewportWidth o;
  ViewportHeight := ViewportHeight o;
  BlockAds := BlockAds o;
  Selector := Selector o;
  WaitForSelector := WaitForSelector o;
  WaitForSelectorTimeout := WaitForSelectorTimeout o;
  WaitUntil := WaitUntil o;
  WaitUntilTimeout := WaitUntilTimeout o;
  Delay := Delay o;
  Timeout := Timeout o;
  Headers := Headers o;
  EmulateMedia := EmulateMedia o;
  OwnerPassword := OwnerPassword o;
  UserPassword := UserPassword o;
  Watermark := Watermark o |}.

(** [o] waiting for a selector with the given timeout. *)
Definition withWaitForSelector (sel : string) (timeout : Z) (o : ConversionOptions)
  : ConversionOptions := {|
  HTML := HTML o;
  URL := URL o;
  PDFParams := PDFParams o;
  ViewportWidth := ViewportWidth o;
  ViewportHeight := ViewportHeight o;
  BlockAds := BlockAds o;
  Selector := Selector o;
  WaitForSelector := sel;
  WaitForSelectorTimeout := timeout;
  WaitUntil := WaitUntil o;
  WaitUntilTimeout := WaitUntilTimeout o;
  Delay := Delay o;
  Timeout := Timeout o;
  Headers := Headers o;
  EmulateMedia := EmulateMedia o;
  OwnerPassword := OwnerPassword o;
  UserPassword := UserPassword o;
  Watermark := Watermark o |}.

(** ** Vocabulary of the statements below *)

(** Neither of the first two rules applies: no [margin], one that is
    neither number nor string, a number not above -1, or the empty
    string. *)
Definition noMarginShorthand (jsonMap : gmap string json) : Prop :=
  (forall f, jsonMap !! "margin" = Some (JNum f) -> PrimFloat.ltb (-1)%float f = false) /\
  (forall s, jsonMap !! "margin" = Some (JStr s) -> s = "").

(** The four sides of a margin tuple, in the order the code returns them. *)
Definition topOf (m : margins) : float := let '(t, _, _, _) := m in t.
Definition rightOf (m : margins) : float := let '(_, r, _, _) := m in r.
Definition bottomOf (m : margins) : float := let '(_, _, b, _) := m in b.
Definition leftOf (m : margins) : float := let '(_, _, _, l) := m in l.

(** The errors a session can end with. *)
Definition sessionError (e : error) : Prop :=
  match e with
  | ErrTimeout | ErrWaitUntilTimeout | External _ => True
  | _ => False
  end.

(** [m] fails with session errors only. *)
Definition raises {World A} (m : M World A) : Prop :=
  forall w e w', m w = (inl e, w') -> sessionError e.

(** No document password is set. *)
Definition noPasswords (o : ConversionOptions) : Prop :=
  OwnerPassword o = "" /\ UserPassword o = "".

(** ** Example requests *)

(** Three documents at three addresses, for the examples below. *)
Definition threePages : MergeOptions := {|
  Documents := [ withURL "http://a" NewConversionOptions;
                 withURL "http://b" NewConversionOptions;
                 withURL "http://c" NewConversionOptions ];
  MergeOwnerPassword := ""; MergeUserPassword := ""; MergeWatermark := None |}.

(** Five documents of which the one at index 2 cannot be reached. *)
Definition fivePages : MergeOptions := {|
  Documents := [ withURL "http://d0" NewConversionOptions;
                 withURL "http://d1" NewConversionOptions;
                 withURL Replay.unreachable NewConversionOptions;
                 withURL "http://d3" NewConversionOptions;
                 withURL "http://d4" NewConversionOptions ];
  MergeOwnerPassword := ""; MergeUserPassword := ""; MergeWatermark := None |}.

(** A merge request whose documents ask for passwords of their own. *)
Definition lockedMerge : json :=
  JObj {[ "documents" :=
            JArr [ JObj {[ "html" := JStr "<p>Page 1</p>";
                           "ownerPassword" := JStr "secret" ]};
                   JObj {[ "url" := JStr "http://b";
                           "userPassword" := JStr "reader" ]} ];
          "ownerPassword" := JStr "owner-pw" ]}.

(** ** String lists ([parseStrings], [parseStringOrStrings]) *)

(** The loop of [parseStrings] over the elements of the array; an element
    that is no string ends it with the zero value of the failed
    assertion as [Value]. *)
Fixpoint collectStrings (key : string) (rvals : list json)
  : list string * option error :=
  match rvals with
  | [] => ([], None)
  | JStr val :: rest =>
      match collectStrings key rest with
      | (vals, None) => (val :: vals, None)
      | (_, Some err) => ([], Some err)
      end
  | _ :: _ => ([], Some (ParseError key (JStr "")))
  end.

Definition parseStrings (jsonMap : gmap string json) (key : string)
    (def : list string) : list string * option error :=
  match jsonMap !! key with
  | None => (def, None)
  | Some (JArr rvals) => collectStrings key rvals
  | Some raw => ([], Some (ParseError key raw))
  end.

Definition parseStringOrStrings (jsonMap : gmap string json) (key : string)
    (def : list string) : list string * option error :=
  match parseStrings jsonMap key def with
  | (vals, None) => (vals, None)
  | (_, Some _) =>
      match jsonMap !! key with
      | None => (def, None)
      | Some (JStr val) => ([val], None)
      | Some raw => ([], Some (ParseError key raw))
      end
  end.

(** ** The HTTP handler of the server (POST /conversions) *)

(** What the handler writes: the status and, for 201, the PDF; for 400 the
    error whose message goes into the JSON body. *)
Record Response := { status : Z; payload : error + bytes }.

Section Server.

Variable ParseFloat : string -> option float.
Variable World : Type.
Variable ask : forall R, Call R -> World -> (ext_error + R) * World.
Variable wait : forall R, Wait R -> World -> R * World.

(** The handler function registered by [New]; [None] is a nil
    dereference of [options]. *)
Definition handleConversion (body : option json) (w : World)
  : option Response * World :=
  match NewConversionOptionsFromJSON ParseFloat body with
  | (_, Some err) => (Some {| status := 400; payload := inl err |}, w)
  | (None, None) => (None, w)
  | (Some options, None) =>
      match Convert World ask wait Caller options w with
      | (inl err, w') => (Some {| status := 400; payload := inl err |}, w')
      | (inr pdf, w') => (Some {| status := 201; payload := inr pdf |}, w')
      end
  end.

End Server.

(** ** More vocabulary *)

(** The keys [NewConversionOptionsFromJSON] reads. *)
Definition requestKeys : list string :=
  [ "html"; "url"; "landscape"; "displayHeaderFooter"; "printBackground";
    "scale"; "paperWidth"; "paperHeight"; "format";
    "margin"; "marginTop"; "marginRight"; "marginBottom"; "marginLeft";
    "pageRanges"; "headerTemplate"; "footerTemplate"; "preferCSSPageSize";
    "viewportWidth"; "viewportHeight"; "blockAds"; "selector";
    "waitForSelector"; "waitForSelectorTimeout"; "waitUntil";
    "waitUntilTimeout"; "delay"; "timeout"; "headers"; "emulateMedia";
    "ownerPassword"; "userPassword" ].

Definition marginKeys : list string :=
  [ "margin"; "marginTop"; "marginRight"; "marginBottom"; "marginLeft" ].

(** [e] is a ParseError about a key that the request carries. *)
Definition blames (jsonMap : gmap string json) (e : error) : Prop :=
  exists key value,
    e = ParseError key value /\ key ∈ requestKeys /\ is_Some (jsonMap !! key).

(** How many goroutines have ended, and how many have returned from
    [Convert]. *)
Fixpoint ended (ts : list pc) : nat :=
  match ts with
  | [] => 0%nat
  | Finished :: r => S (ended r)
  | _ :: r => ended r
  end.

Fixpoint returned (ts : list pc) : nat :=
  match ts with
  | [] => 0%nat
  | Converting :: r => returned r
  | _ :: r => S (returned r)
  end.

(** ** More invariants of the merge coordinator *)

Section CoordinatorBounds.

Variable World : Type.
Variable ask : forall R, Call R -> World -> (ext_error + R) * World.
Variable wait : forall R, Wait R -> World -> R * World.
Variable ctx : Context.
Variable options : MergeOptions.
Variable session : nat -> World.

(** [e] is the error with which the conversion of some document fails. *)
Definition documentError (e : error) : Prop :=
  exists i o,
    documents options !! i = Some o /\
    fst (converted World ask wait ctx session i o) = Some e.

(** Messages never outnumber the goroutines that can have sent them. *)
Record inCapacity (st : state) : Prop := {
  bd_tasks : length (tasks st) = capacity options;
  bd_cres : (length (cres st) + c st <= ended (tasks st))%nat;
  bd_cerr : (length (cerr st) <= returned (tasks st))%nat
}.

(** Every error in flight or returned has a known origin. *)
Record blamed (st : state) : Prop := {
  bl_cerr : forall e, e ∈ cerr st -> documentError e;
  bl_at : match at_ st with
          | Returned e => e = ErrTimeout \/ documentError e
          | _ => True
          end
}.

(** The loop is left for [api.Merge] with a full counter only. *)
Definition counted (st : state) : Prop :=
  match at_ st with
  | Merging _ => c st = length (bufs st)
  | _ => True
  end.

End CoordinatorBounds.

(** A browser that cannot be started; everything else answers as in
    [Replay]. *)
Module Offline.

Definition ask (R : Type) (cl : Call R) (w : Replay.World)
  : (ext_error + R) * Replay.World :=
  match cl in Call R return (ext_error + R) * Replay.World with
  | Allocate _ => (inl (Failure 2), w)
  | cl' => Replay.ask _ cl' w
  end.

End Offline.

(** * Properties of the option resolver *)

Lemma substring_0_append (s u : string) :
  substring 0 (String.length s) (s ++ u) = s.
Proof.
  induction s as [|ch s IH]; simpl.
  - destruct u; reflexivity.
  - now rewrite IH.
Qed.

Lemma substring_0_all (u : string) : substring 0 (String.length u) u = u.
Proof. induction u as [|ch u IH]; simpl; [reflexivity | now rewrite IH]. Qed.

Lemma substring_skip_append (s u : string) (n : nat) :
  substring (String.length s) n (s ++ u) = substring 0 n u.
Proof. induction s as [|ch s IH]; simpl; [reflexivity | exact IH]. Qed.

Lemma length_append (s u : string) :
  String.length (s ++ u) = (String.length s + String.length u)%nat.
Proof. induction s as [|ch s IH]; simpl; [reflexivity | now rewrite IH]. Qed.

Lemma lastTwo_append (s u : string) :
  String.length u = 2%nat -> Str.lastTwo (s ++ u) = u.
Proof.
  intros Hu. unfold Str.lastTwo. rewrite length_append, Hu.
  replace (String.length s + 2 - 2)%nat with (String.length s) by lia.
  rewrite substring_skip_append, <- Hu. apply substring_0_all.
Qed.

Lemma dropLastTwo_append (s u : string) :
  String.length u = 2%nat -> Str.dropLastTwo (s ++ u) = s.
Proof.
  intros Hu. unfold Str.dropLastTwo. rewrite length_append, Hu.
  replace (String.length s + 2 - 2)%nat with (String.length s) by lia.
  apply substring_0_append.
Qed.

Section ResolverFacts.

Variable ParseFloat : string -> option float.

Lemma parseUnit_absent (jsonMap : gmap string json) key def :
  jsonMap !! key = None -> parseUnit ParseFloat jsonMap key def = (def, None).
Proof. intros H. unfold parseUnit. now rewrite H. Qed.

Lemma parseUnit_number (jsonMap : gmap string json) key def f :
  jsonMap !! key = Some (JNum f) ->
  parseUnit ParseFloat jsonMap key def = ((f / 96)%float, None).
Proof. intros H. unfold parseUnit. now rewrite H. Qed.

(** A numeral followed by a two-byte suffix that lower-cases to a unit of
    the table. *)
Lemma stringToInch_suffix text suffix ratio value :
  String.length suffix = 2%nat ->
  tableGet UnitToPixels (Str.ToLower suffix) = Some ratio ->
  ParseFloat (Str.stripTrailingLetters text) = Some value ->
  stringToInch ParseFloat (text ++ suffix)
  = (pixelToInch (value * ratio), None).
Proof.
  intros Hlen Hunit Hval. unfold stringToInch.
  assert (Hge : (String.length (text ++ suffix) <? 2)%nat = false).
  { apply Nat.ltb_ge. rewrite length_append. lia. }
  rewrite Hge, lastTwo_append, dropLastTwo_append by assumption.
  now rewrite Hunit, Hval.
Qed.

Lemma parseUnit_suffix (jsonMap : gmap string json) key def text suffix ratio value :
  jsonMap !! key = Some (JStr (text ++ suffix)) ->
  String.length suffix = 2%nat ->
  tableGet UnitToPixels (Str.ToLower suffix) = Some ratio ->
  ParseFloat (Str.stripTrailingLetters text) = Some value ->
  parseUnit ParseFloat jsonMap key def = (pixelToInch (value * ratio), None).
Proof.
  intros Hkey Hlen Hunit Hval. unfold parseUnit. rewrite Hkey.
  now rewrite (stringToInch_suffix _ _ _ _ Hlen Hunit Hval).
Qed.

(** What the code does with a suffix that is no unit: the numeral is
    multiplied by the zero value of the failed table lookup. *)
Lemma stringToInch_unknown_suffix raw value :
  (2 <= String.length raw)%nat ->
  tableGet UnitToPixels (Str.ToLower (Str.lastTwo raw)) = None ->
  ParseFloat (Str.stripTrailingLetters raw) = Some value ->
  stringToInch ParseFloat raw = (pixelToInch (value * 0), None).
Proof.
  intros Hlen Hunit Hval. unfold stringToInch.
  apply Nat.ltb_ge in Hlen. now rewrite Hlen, Hunit, Hval.
Qed.

End ResolverFacts.

Lemma UnitToPixels_lookup (unit : string) (ratio : float) :
  tableGet UnitToPixels unit = Some ratio <->
  (unit = "px" /\ ratio = 1%float) \/ (unit = "in" /\ ratio = 96%float) \/
  (unit = "cm" /\ ratio = 37.8%float) \/ (unit = "mm" /\ ratio = 3.78%float).
Proof.
  unfold UnitToPixels, tableGet. split.
  - repeat (match goal with
            | |- context [String.eqb ?a unit] =>
                destruct (String.eqb_spec a unit) as [<-|?]
            end; [intros [= <-]; tauto|]).
    discriminate.
  - intros [[-> ->]|[[-> ->]|[[-> ->]|[-> ->]]]]; reflexivity.
Qed.

(** C5, the claim as stated fails on a bare number: 100 pixels resolve to
    100/96 inches, which is not the two-decimal rounding 1.04. *)
Lemma parseUnit_number_not_rounded :
  parseUnit Decimal.ParseFloat {[ "paperWidth" := JNum 100%float ]}
    "paperWidth" 8.5%float = (1.0416666666666667%float, None) /\
  pixelToInch 100%float = 1.04%float /\
  PrimFloat.eqb 1.0416666666666667%float (pixelToInch 100%float) = false.
Proof. repeat split; vm_compute; reflexivity. Qed.

(** C5, amended: a bare JSON number is taken as pixels and divided by 96
    without rounding; a string that ends in two bytes matching px, in, cm
    or mm case-insensitively resolves to the numeral before them times the
    ratio 1, 96, 37.8 or 3.78, as round(pixels*100/96)/100; so "96px" is 1
    inch and the number 192 is 2 inches. *)
Theorem parseUnit_pixels_and_units
    (ParseFloat : string -> option float) (jsonMap : gmap string json)
    (key : string) (def : float) :
  (forall f, jsonMap !! key = Some (JNum f) ->
     parseUnit ParseFloat jsonMap key def = ((f / 96)%float, None)) /\
  (forall text suffix unit ratio value,
     jsonMap !! key = Some (JStr (text ++ suffix)) ->
     String.length suffix = 2%nat ->
     Str.ToLower suffix = unit ->
     In (unit, ratio)
        [("px", 1%float); ("in", 96%float); ("cm", 37.8%float); ("mm", 3.78%float)] ->
     ParseFloat (Str.stripTrailingLetters text) = Some value ->
     parseUnit ParseFloat jsonMap key def
     = ((F64.Round (((value * ratio) * 100) / 96) / 100)%float, None)) /\
  (ParseFloat "96" = Some 96%float ->
   jsonMap !! key = Some (JStr "96px") ->
   parseUnit ParseFloat jsonMap key def = (1%float, None)) /\
  (jsonMap !! key = Some (JNum 192%float) ->
   parseUnit ParseFloat jsonMap key def = (2%float, None)).
Proof.
  repeat split.
  - intros f Hf. now apply parseUnit_number.
  - intros text suffix unit ratio value Hkey Hlen <- Hin Hval.
    assert (Hget : tableGet UnitToPixels (Str.ToLower suffix) = Some ratio).
    { apply UnitToPixels_lookup. simpl in Hin.
      destruct Hin as [[= <- <-]|[[= <- <-]|[[= <- <-]|[[= <- <-]|[]]]]]; tauto. }
    now rewrite (parseUnit_suffix _ _ _ _ _ _ _ _ Hkey Hlen Hget Hval).
  - intros H96 Hkey.
    rewrite (parseUnit_suffix ParseFloat jsonMap key def "96" "px" 1%float 96%float);
      [ | assumption | reflexivity | reflexivity | exact H96 ].
    vm_compute. reflexivity.
  - intros Hkey. rewrite (parseUnit_number _ _ _ _ _ Hkey).
    vm_compute. reflexivity.
Qed.

(** The statement above on 100 pixels, on "2.5CM", on "96px" and on 192
    pixels. *)
Lemma parseUnit_pixels_and_units_witness :
  parseUnit Decimal.ParseFloat {[ "paperWidth" := JNum 100%float ]} "paperWidth" 8.5%float
  = ((100 / 96)%float, None) /\
  parseUnit Decimal.ParseFloat {[ "paperWidth" := JStr "2.5CM" ]} "paperWidth" 8.5%float
  = ((F64.Round (((2.5 * 37.8) * 100) / 96) / 100)%float, None) /\
  parseUnit Decimal.ParseFloat {[ "paperWidth" := JStr "96px" ]} "paperWidth" 8.5%float
  = (1%float, None) /\
  parseUnit Decimal.ParseFloat {[ "paperWidth" := JNum 192%float ]} "paperWidth" 8.5%float
  = (2%float, None).
Proof.
  split; [|split; [|split]].
  - apply (proj1 (parseUnit_pixels_and_units Decimal.ParseFloat
                    {[ "paperWidth" := JNum 100%float ]} "paperWidth" 8.5%float)).
    reflexivity.
  - apply (proj1 (proj2 (parseUnit_pixels_and_units Decimal.ParseFloat
                    {[ "paperWidth" := JStr "2.5CM" ]} "paperWidth" 8.5%float))
             "2.5" "CM" "cm" 37.8%float 2.5%float).
    + reflexivity.
    + reflexivity.
    + reflexivity.
    + simpl. tauto.
    + vm_compute. reflexivity.
  - apply (proj1 (proj2 (proj2 (parseUnit_pixels_and_units Decimal.ParseFloat
                    {[ "paperWidth" := JStr "96px" ]} "paperWidth" 8.5%float)))).
    + vm_compute. reflexivity.
    + reflexivity.
  - apply (proj2 (proj2 (proj2 (parseUnit_pixels_and_units Decimal.ParseFloat
                    {[ "paperWidth" := JNum 192%float ]} "paperWidth" 8.5%float)))).
    reflexivity.
Defined.

Section MarginFacts.

Variable ParseFloat : string -> option float.

Lemma parseMargins_numeric (jsonMap : gmap string json) f :
  jsonMap !! "margin" = Some (JNum f) ->
  PrimFloat.ltb (-1)%float f = true ->
  parseMargins ParseFloat jsonMap
  = ((pixelToInch f, pixelToInch f, pixelToInch f, pixelToInch f), None).
Proof.
  intros Hm Hgt. unfold parseMargins, parseFloat64. now rewrite Hm, Hgt.
Qed.

Lemma parseMargins_shorthand (jsonMap : gmap string json) s :
  jsonMap !! "margin" = Some (JStr s) ->
  s <> "" ->
  parseMargins ParseFloat jsonMap = parseMarginsFrom ParseFloat s.
Proof.
  intros Hm Hne. unfold parseMargins, parseFloat64, parseString. rewrite Hm.
  destruct (String.eqb_spec s "") as [->|_]; [contradiction | reflexivity].
Qed.


Lemma parseMargins_each (jsonMap : gmap string json) t r b l :
  noMarginShorthand jsonMap ->
  parseUnit ParseFloat jsonMap "marginTop" 0.4%float = (t, None) ->
  parseUnit ParseFloat jsonMap "marginRight" 0.4%float = (r, None) ->
  parseUnit ParseFloat jsonMap "marginBottom" 0.4%float = (b, None) ->
  parseUnit ParseFloat jsonMap "marginLeft" 0.4%float = (l, None) ->
  parseMargins ParseFloat jsonMap = ((t, r, b, l), None).
Proof.
  intros [Hnum Hstr] Ht Hr Hb Hl. unfold parseMargins, parseFloat64, parseString.
  destruct (jsonMap !! "margin") as [[| |f|s| |]|] eqn:Hm;
    try (now rewrite Ht, Hr, Hb, Hl).
  - rewrite (Hnum f eq_refl). now rewrite Ht, Hr, Hb, Hl.
  - rewrite (Hstr s eq_refl). simpl. now rewrite Ht, Hr, Hb, Hl.
Qed.

Lemma parseMarginsFrom_1 raw t0 v0 :
  Str.Split (Str.Trim raw) = [t0] ->
  stringToInch ParseFloat t0 = (v0, None) ->
  parseMarginsFrom ParseFloat raw = ((v0, v0, v0, v0), None).
Proof. intros Hs H0. unfold parseMarginsFrom. now rewrite Hs, H0. Qed.

Lemma parseMarginsFrom_2 raw t0 t1 v0 v1 :
  Str.Split (Str.Trim raw) = [t0; t1] ->
  stringToInch ParseFloat t0 = (v0, None) ->
  stringToInch ParseFloat t1 = (v1, None) ->
  parseMarginsFrom ParseFloat raw = ((v0, v1, v0, v1), None).
Proof. intros Hs H0 H1. unfold parseMarginsFrom. now rewrite Hs, H0, H1. Qed.

Lemma parseMarginsFrom_3 raw t0 t1 t2 v0 v1 v2 :
  Str.Split (Str.Trim raw) = [t0; t1; t2] ->
  stringToInch ParseFloat t0 = (v0, None) ->
  stringToInch ParseFloat t1 = (v1, None) ->
  stringToInch ParseFloat t2 = (v2, None) ->
  parseMarginsFrom ParseFloat raw = ((v0, v1, v2, v1), None).
Proof. intros Hs H0 H1 H2. unfold parseMarginsFrom. now rewrite Hs, H0, H1, H2. Qed.

Lemma parseMarginsFrom_4 raw t0 t1 t2 t3 v0 v1 v2 v3 :
  Str.Split (Str.Trim raw) = [t0; t1; t2; t3] ->
  stringToInch ParseFloat t0 = (v0, None) ->
  stringToInch ParseFloat t1 = (v1, None) ->
  stringToInch ParseFloat t2 = (v2, None) ->
  stringToInch ParseFloat t3 = (v3, None) ->
  parseMarginsFrom ParseFloat raw = ((v0, v1, v2, v3), None).
Proof.
  intros Hs H0 H1 H2 H3. unfold parseMarginsFrom. now rewrite Hs, H0, H1, H2, H3.
Qed.

End MarginFacts.


(** C6, the claim as stated fails on a numeric margin that is not above
    -1: the number -5 is not applied to the four sides (that would be -0.05
    inch each); the individual fields, here their default, are used. *)
Lemma parseMargins_negative_number_skipped :
  parseMargins Decimal.ParseFloat {[ "margin" := JNum (-5)%float ]}
  = ((0.4, 0.4, 0.4, 0.4)%float, None) /\
  pixelToInch (-5)%float = (-0.05)%float /\
  PrimFloat.eqb 0.4%float (pixelToInch (-5)%float) = false.
Proof. repeat split; vm_compute; reflexivity. Qed.

(** C6, amended: a numeric margin above -1 comes first and sets all four
    sides; then a non-empty string margin, read as shorthand; otherwise
    the four individual fields, each 0.4in when absent.  A shorthand of
    one token sets all sides, of two tokens top/bottom and left/right, of
    three tokens top, left/right, bottom, and of four tokens top, right,
    bottom, left. *)
Theorem margin_precedence_and_shorthand
    (ParseFloat : string -> option float) (jsonMap : gmap string json) :
  (forall f, jsonMap !! "margin" = Some (JNum f) ->
     PrimFloat.ltb (-1)%float f = true ->
     forall m, m = fst (parseMargins ParseFloat jsonMap) ->
     snd (parseMargins ParseFloat jsonMap) = None /\
     topOf m = pixelToInch f /\ rightOf m = pixelToInch f /\
     bottomOf m = pixelToInch f /\ leftOf m = pixelToInch f) /\
  (forall s, jsonMap !! "margin" = Some (JStr s) -> s <> "" ->
     parseMargins ParseFloat jsonMap = parseMarginsFrom ParseFloat s) /\
  (noMarginShorthand jsonMap ->
     forall t r b l,
     parseUnit ParseFloat jsonMap "marginTop" 0.4%float = (t, None) ->
     parseUnit ParseFloat jsonMap "marginRight" 0.4%float = (r, None) ->
     parseUnit ParseFloat jsonMap "marginBottom" 0.4%float = (b, None) ->
     parseUnit ParseFloat jsonMap "marginLeft" 0.4%float = (l, None) ->
     parseMargins ParseFloat jsonMap = ((t, r, b, l), None)) /\
  (forall key, jsonMap !! key = None ->
     parseUnit ParseFloat jsonMap key 0.4%float = (0.4%float, None)) /\
  (forall raw tokens values,
     Str.Split (Str.Trim raw) = tokens ->
     map (stringToInch ParseFloat) tokens = map (fun v => (v, None)) values ->
     forall m, m = fst (parseMarginsFrom ParseFloat raw) ->
     match values with
     | [v0] =>
         snd (parseMarginsFrom ParseFloat raw) = None /\
         topOf m = v0 /\ rightOf m = v0 /\ bottomOf m = v0 /\ leftOf m = v0
     | [v0; v1] =>
         snd (parseMarginsFrom ParseFloat raw) = None /\
         topOf m = v0 /\ bottomOf m = v0 /\ leftOf m = v1 /\ rightOf m = v1
     | [v0; v1; v2] =>
         snd (parseMarginsFrom ParseFloat raw) = None /\
         topOf m = v0 /\ leftOf m = v1 /\ rightOf m = v1 /\ bottomOf m = v2
     | [v0; v1; v2; v3] =>
         snd (parseMarginsFrom ParseFloat raw) = None /\
         topOf m = v0 /\ rightOf m = v1 /\ bottomOf m = v2 /\ leftOf m = v3
     | _ => True
     end).
Proof.
  repeat apply conj.
  - intros f Hm Hgt m ->. rewrite (parseMargins_numeric _ _ _ Hm Hgt). simpl. tauto.
  - intros s Hm Hne. now apply parseMargins_shorthand.
  - intros Hno t r b l. now apply parseMargins_each.
  - intros key Hkey. now apply parseUnit_absent.
  - intros raw tokens values Hs Hv m ->.
    destruct values as [|v0 [|v1 [|v2 [|v3 [|v4 values]]]]]; try exact I;
      destruct tokens as [|t0 [|t1 [|t2 [|t3 [|t4 tokens]]]]]; try discriminate Hv;
      simpl in Hv.
    + injection Hv as H0.
      rewrite (parseMarginsFrom_1 _ _ _ _ Hs H0). simpl. tauto.
    + injection Hv as H0 H1.
      rewrite (parseMarginsFrom_2 _ _ _ _ _ _ Hs H0 H1). simpl. tauto.
    + injection Hv as H0 H1 H2.
      rewrite (parseMarginsFrom_3 _ _ _ _ _ _ _ _ Hs H0 H1 H2). simpl. tauto.
    + injection Hv as H0 H1 H2 H3.
      rewrite (parseMarginsFrom_4 _ _ _ _ _ _ _ _ _ _ Hs H0 H1 H2 H3). simpl. tauto.
Qed.

(** The statement above on a numeric margin, on a shorthand, on a single
    individual field, and on a three-token shorthand with spaces around. *)
Lemma margin_precedence_and_shorthand_witness :
  (let m := fst (parseMargins Decimal.ParseFloat {[ "margin" := JNum 96%float ]}) in
   topOf m = 1%float /\ rightOf m = 1%float /\ bottomOf m = 1%float /\ leftOf m = 1%float) /\
  parseMargins Decimal.ParseFloat {[ "margin" := JStr "96px 48px" ]}
  = parseMarginsFrom Decimal.ParseFloat "96px 48px" /\
  parseMargins Decimal.ParseFloat {[ "marginLeft" := JStr "1in" ]}
  = ((0.4, 0.4, 0.4, 1)%float, None) /\
  (let m := fst (parseMarginsFrom Decimal.ParseFloat " 96px 48px 2in ") in
   topOf m = 1%float /\ leftOf m = 0.5%float /\ rightOf m = 0.5%float /\ bottomOf m = 2%float).
Proof.
  split; [|split; [|split]].
  - pose proof (proj1 (margin_precedence_and_shorthand Decimal.ParseFloat
                         {[ "margin" := JNum 96%float ]}) 96%float) as H.
    specialize (H eq_refl eq_refl _ eq_refl). simpl. exact (proj2 H).
  - apply (proj1 (proj2 (margin_precedence_and_shorthand Decimal.ParseFloat
                           {[ "margin" := JStr "96px 48px" ]}))).
    + reflexivity.
    + discriminate.
  - apply (proj1 (proj2 (proj2 (margin_precedence_and_shorthand Decimal.ParseFloat
                                  {[ "marginLeft" := JStr "1in" ]})))).
    + split; intros ? H; vm_compute in H; discriminate H.
    + vm_compute. reflexivity.
    + vm_compute. reflexivity.
    + vm_compute. reflexivity.
    + vm_compute. reflexivity.
  - pose proof (proj2 (proj2 (proj2 (proj2 (margin_precedence_and_shorthand
                  Decimal.ParseFloat ∅)))) " 96px 48px 2in "
                  ["96px"; "48px"; "2in"] [1%float; 0.5%float; 2%float]) as H.
    specialize (H eq_refl eq_refl _ eq_refl). simpl in H. simpl. exact (proj2 H).
Defined.

(** ** The dropped margin error *)

Section MarginErrors.

Variable ParseFloat : string -> option float.

(** What [resolve] keeps of [parseMarginsFix] is its tuple; whether the
    error next to it is nil makes no difference. *)
Lemma nudge_not_zero v : PrimFloat.eqb (nudge v) 0%float = false.
Proof.
  unfold nudge. destruct (PrimFloat.eqb v 0%float) eqn:Hv; [reflexivity | exact Hv].
Qed.

Lemma nudge_zero v : PrimFloat.eqb v 0%float = true -> nudge v = 0.00000001%float.
Proof. intros Hv. unfold nudge. now rewrite Hv. Qed.

Lemma nudge_nonzero v : PrimFloat.eqb v 0%float = false -> nudge v = v.
Proof. intros Hv. unfold nudge. now rewrite Hv. Qed.

(** The part of C8 that holds: when [parseMarginsFix] returns no error,
    it returns the sides of [parseMargins] with every zero replaced by
    1e-8 and the others unchanged, so none of them is zero. *)
Lemma parseMarginsFix_ok (jsonMap : gmap string json) m :
  parseMarginsFix ParseFloat jsonMap = (m, None) ->
  exists t r b l,
    parseMargins ParseFloat jsonMap = ((t, r, b, l), None) /\
    m = (nudge t, nudge r, nudge b, nudge l) /\
    PrimFloat.eqb (topOf m) 0%float = false /\
    PrimFloat.eqb (rightOf m) 0%float = false /\
    PrimFloat.eqb (bottomOf m) 0%float = false /\
    PrimFloat.eqb (leftOf m) 0%float = false.
Proof.
  unfold parseMarginsFix.
  destruct (parseMargins ParseFloat jsonMap) as [[[[t r] b] l] [err|]];
    [discriminate|].
  intros [= <-]. exists t, r, b, l. simpl.
  repeat split; apply nudge_not_zero.
Qed.

Lemma parseMarginsFix_error (jsonMap : gmap string json) m err :
  parseMargins ParseFloat jsonMap = (m, Some err) ->
  parseMarginsFix ParseFloat jsonMap = (m, Some err).
Proof.
  intros H. unfold parseMarginsFix. rewrite H.
  now destruct m as [[[t r] b] l].
Qed.

End MarginErrors.

(** C7, the code at a failing input: the second token of the shorthand is
    no number, [parseMarginsFix] reports it, and resolution still returns
    options and a nil error. *)
Theorem resolve_ignores_margin_error :
  snd (parseMarginsFix Decimal.ParseFloat {[ "margin" := JStr "10px abc" ]})
  = Some (NumError "") /\
  exists options,
    NewConversionOptionsFromJSON Decimal.ParseFloat
      (Some (JObj {[ "margin" := JStr "10px abc" ]})) = (Some options, None).
Proof. split; [vm_compute; reflexivity | eexists; vm_compute; reflexivity]. Qed.

(** C8, the code at a failing input: with the margin error dropped, the
    resolved options carry the zeros returned next to it, not nudged. *)
Theorem resolve_zero_margin_after_error :
  exists options,
    NewConversionOptionsFromJSON Decimal.ParseFloat
      (Some (JObj {[ "margin" := JStr "10px abc" ]})) = (Some options, None) /\
    PrimFloat.eqb (MarginTop (PDFParams options)) 0%float = true /\
    PrimFloat.eqb (MarginRight (PDFParams options)) 0%float = true /\
    PrimFloat.eqb (MarginBottom (PDFParams options)) 0%float = true /\
    PrimFloat.eqb (MarginLeft (PDFParams options)) 0%float = true.
Proof. eexists. repeat split; vm_compute; reflexivity. Qed.

(** ** Errors of resolution *)

Create HintDb getters.

Section ResolveErrors.

Variable ParseFloat : string -> option float.

Lemma parseBool_error (jsonMap : gmap string json) key def v e :
  parseBool jsonMap key def = (v, Some e) -> isParseError e = true.
Proof.
  unfold parseBool. destruct (jsonMap !! key) as [[]|]; now intros [= <- <-].
Qed.

Lemma parseInt64_error (jsonMap : gmap string json) key def v e :
  parseInt64 jsonMap key def = (v, Some e) -> isParseError e = true.
Proof.
  unfold parseInt64. destruct (jsonMap !! key) as [[]|]; now intros [= <- <-].
Qed.

Lemma parseFloat64_error (jsonMap : gmap string json) key def v e :
  parseFloat64 jsonMap key def = (v, Some e) -> isParseError e = true.
Proof.
  unfold parseFloat64. destruct (jsonMap !! key) as [[]|]; now intros [= <- <-].
Qed.

Lemma parseDuration_error (jsonMap : gmap string json) key def v e :
  parseDuration jsonMap key def = (v, Some e) -> isParseError e = true.
Proof.
  unfold parseDuration.
  destruct (parseInt64 jsonMap key 0) as [val [err|]] eqn:H; [|discriminate].
  intros [= <- <-]. now apply parseInt64_error in H.
Qed.

Lemma parseString_error (jsonMap : gmap string json) key def v e :
  parseString jsonMap key def = (v, Some e) -> isParseError e = true.
Proof.
  unfold parseString. destruct (jsonMap !! key) as [[]|]; now intros [= <- <-].
Qed.

Lemma parseStringOnly_error (jsonMap : gmap string json) key def allowed v e :
  parseStringOnly jsonMap key def allowed = (v, Some e) -> isParseError e = true.
Proof.
  unfold parseStringOnly.
  destruct (parseString jsonMap key def) as [param [err|]] eqn:H.
  - intros [= <- <-]. now apply parseString_error in H.
  - destruct (existsb _ allowed); now intros [= <- <-].
Qed.

Lemma parseUnit_error (jsonMap : gmap string json) key def v e :
  parseUnit ParseFloat jsonMap key def = (v, Some e) -> isParseError e = true.
Proof.
  unfold parseUnit. destruct (jsonMap !! key) as [[| | |s| |]|];
    try (now intros [= <- <-]).
  destruct (stringToInch ParseFloat s) as [inch [err|]]; now intros [= <- <-].
Qed.

Lemma parseHeaders_error (jsonMap : gmap string json) v e :
  parseHeaders jsonMap = (v, Some e) -> isParseError e = true.
Proof.
  unfold parseHeaders. destruct (jsonMap !! "headers") as [[]|]; now intros [= <- <-].
Qed.

Lemma parseEmulateMedia_error (jsonMap : gmap string json) def v e :
  parseEmulateMedia jsonMap def = (v, Some e) -> isParseError e = true.
Proof.
  unfold parseEmulateMedia.
  destruct (jsonMap !! "emulateMedia") as [[| | |val| |]|];
    try (now intros [= <- <-]).
  destruct (_ && _)%bool; now intros [= <- <-].
Qed.

Hint Resolve parseBool_error parseInt64_error parseFloat64_error
  parseDuration_error parseString_error parseStringOnly_error parseUnit_error
  parseHeaders_error parseEmulateMedia_error : getters.

(** One statement of [resolve]: either it returns its error, which is a
    ParseError, or resolution goes on. *)
Ltac next_getter :=
  match goal with
  | |- context [applyFormat ?m ?wh] => destruct (applyFormat m wh) as [? ?]
  | |- context [parseMarginsFix ?pf ?m] =>
      destruct (parseMarginsFix pf m) as [[[[? ?] ?] ?] ?]
  | |- context [match ?g with (_, _) => _ end] =>
      let H := fresh "Hget" in
      destruct g as [? [?|]] eqn:H;
      [ simpl; intros; simplify_eq; eauto with getters | clear H ]
  end.

(** Resolution fails with nothing but a ParseError. *)
Lemma resolve_error (jsonMap : gmap string json) e :
  snd (resolve ParseFloat jsonMap) = Some e -> isParseError e = true.
Proof.
  unfold resolve. repeat next_getter. discriminate.
Qed.

(** The two sources of a resolved request are the strings of the map. *)
Lemma resolve_sources (jsonMap : gmap string json) options :
  fst (resolve ParseFloat jsonMap) = Some options ->
  parseString jsonMap "html" "" = (HTML options, None) /\
  parseString jsonMap "url" "" = (URL options, None).
Proof.
  unfold resolve.
  destruct (parseString jsonMap "html" "") as [html [?|]]; [discriminate|].
  destruct (parseString jsonMap "url" "") as [url [?|]]; [discriminate|].
  repeat match goal with
  | |- context [applyFormat ?m ?wh] => destruct (applyFormat m wh) as [? ?]
  | |- context [parseMarginsFix ?pf ?m] =>
      destruct (parseMarginsFix pf m) as [[[[? ?] ?] ?] ?]
  | |- context [match ?g with (_, _) => _ end] =>
      destruct g as [? [?|]]; [discriminate|]
  end.
  simpl. now intros [= <-].
Qed.

(** The margins of a resolved request are the tuple of [parseMarginsFix],
    whether or not an error came with it. *)
Lemma resolve_margins (jsonMap : gmap string json) options :
  fst (resolve ParseFloat jsonMap) = Some options ->
  (MarginTop (PDFParams options), MarginRight (PDFParams options),
   MarginBottom (PDFParams options), MarginLeft (PDFParams options))
  = fst (parseMarginsFix ParseFloat jsonMap).
Proof.
  unfold resolve.
  destruct (parseMarginsFix ParseFloat jsonMap) as [[[[mt mr] mb] ml] err].
  repeat match goal with
  | |- context [applyFormat ?m ?wh] => destruct (applyFormat m wh) as [? ?]
  | |- context [match ?g with (_, _) => _ end] =>
      destruct g as [? [?|]]; [discriminate|]
  end.
  simpl. now intros [= <-].
Qed.

Lemma NewConversionOptionsFromJSON_error body e :
  snd (NewConversionOptionsFromJSON ParseFloat body) = Some e ->
  e = ErrInvalidJSON \/ isParseError e = true.
Proof.
  unfold NewConversionOptionsFromJSON. destruct (decodeMap body) as [jsonMap|].
  - intros H. right. now apply resolve_error in H.
  - intros [= <-]. now left.
Qed.

End ResolveErrors.

(** * Properties of the render session *)


Section SessionFacts.

Variable World : Type.
Variable ask : forall R, Call R -> World -> (ext_error + R) * World.
Variable wait : forall R, Wait R -> World -> R * World.

Abbreviation M := (M World).


Lemma raises_ret {A} (a : A) : raises (ret World a).
Proof. intros w e w'. unfold ret. discriminate. Qed.

Lemma raises_fail {A} e : sessionError e -> raises (@fail World A e).
Proof. intros He w e' w'. unfold fail. now intros [= <- _]. Qed.

Lemma raises_call {R} (cl : Call R) : raises (call World ask cl).
Proof.
  intros w e w'. unfold call.
  destruct (ask R cl w) as [[x|r] w0]; [|discriminate].
  now intros [= <- _].
Qed.

Lemma raises_await {R} (op : Wait R) : raises (await World wait op).
Proof.
  intros w e w'. unfold await. destruct (wait R op w). discriminate.
Qed.

Lemma raises_bind {A B} (m : M A) (k : A -> M B) :
  raises m -> (forall a, raises (k a)) -> raises (bind World m k).
Proof.
  intros Hm Hk w e w'. unfold bind.
  destruct (m w) as [[e0|a] w0] eqn:Hmw.
  - intros [= <- _]. exact (Hm _ _ _ Hmw).
  - apply Hk.
Qed.

Ltac raises :=
  repeat first
    [ apply raises_ret | apply raises_call | apply raises_await
    | apply raises_fail; exact I
    | apply raises_bind; [|intros ?]
    | match goal with
      | |- raises (if ?b then _ else _) => destruct b
      | |- raises (match ?x with _ => _ end) => destruct x
      end ].

Lemma raises_beforeNavigation options ctx :
  raises (beforeNavigation World ask wait options ctx).
Proof. unfold beforeNavigation. raises. Qed.

Lemma raises_afterNavigation options ctx :
  raises (afterNavigation World ask wait options ctx).
Proof. unfold afterNavigation. raises. Qed.

Lemma raises_runActions ctx options target :
  raises (runActions World ask wait ctx options target).
Proof.
  intros w e w'. unfold runActions.
  match goal with |- context [match ?m w with _ => _ end] =>
    assert (Hm : raises m);
    [ unfold printToPDFAction; raises;
      auto using raises_beforeNavigation, raises_afterNavigation
    | destruct (m w) as [[e0|pdf] w0] eqn:Hmw ]
  end; [|discriminate].
  specialize (Hm _ _ _ Hmw).
  destruct e0 as [| | | | | | | |[]]; try contradiction; now intros [= <- _].
Qed.

Lemma raises_secure pdf ownerPw userPw :
  raises (secure World ask pdf ownerPw userPw).
Proof. unfold secure. raises. Qed.

Lemma raises_Convert ctx options :
  raises (Convert World ask wait ctx options).
Proof.
  unfold Convert, ConvertHTML, ConvertURL.
  raises; auto using raises_runActions, raises_secure.
Qed.

Lemma Convert_URL ctx options :
  URL options <> "" ->
  Convert World ask wait ctx options = ConvertURL World ask wait ctx options.
Proof.
  intros Hurl. unfold Convert.
  destruct (String.eqb_spec (URL options) ""); [contradiction | reflexivity].
Qed.

Lemma Convert_HTML ctx options :
  URL options = "" ->
  Convert World ask wait ctx options = ConvertHTML World ask wait ctx options.
Proof. intros Hurl. unfold Convert. now rewrite Hurl. Qed.

Lemma ConvertURL_withHTML ctx options html :
  ConvertURL World ask wait ctx (withHTML html options)
  = ConvertURL World ask wait ctx options.
Proof. reflexivity. Qed.

Lemma selectorContext_positive options ctx :
  0 < WaitForSelectorTimeout options ->
  selectorContext options ctx = WithCancel ctx.
Proof.
  intros H. unfold selectorContext.
  now destruct (Z.ltb_spec 0 (WaitForSelectorTimeout options)); [|lia].
Qed.

Lemma selectorContext_zero options ctx :
  WaitForSelectorTimeout options = 0 ->
  selectorContext options ctx = WithTimeout ctx 0.
Proof. intros H. unfold selectorContext. now rewrite H. Qed.

End SessionFacts.

(** C10: with a non-empty URL [Convert] is [ConvertURL], whose run does not
    depend on the HTML text; with an empty URL it is [ConvertHTML],
    whatever the HTML text is. *)
Theorem Convert_prefers_URL
    (World : Type)
    (ask : forall R, Call R -> World -> (ext_error + R) * World)
    (wait : forall R, Wait R -> World -> R * World)
    (ctx : Context) (options : ConversionOptions) :
  (URL options <> "" ->
     Convert World ask wait ctx options = ConvertURL World ask wait ctx options /\
     forall html,
       Convert World ask wait ctx (withHTML html options)
       = Convert World ask wait ctx options) /\
  (URL options = "" ->
     Convert World ask wait ctx options = ConvertHTML World ask wait ctx options).
Proof.
  split.
  - intros Hurl. split; [now apply Convert_URL|].
    intros html. rewrite !Convert_URL by assumption. apply ConvertURL_withHTML.
  - apply Convert_HTML.
Qed.

(** The statement above on a request with both sources, and on the default
    options. *)
Lemma Convert_prefers_URL_witness :
  let both := withURL "http://example.org" (withHTML "<p>text</p>" NewConversionOptions) in
  fst (Convert _ Replay.ask Replay.wait Caller both Replay.blank)
  = fst (ConvertURL _ Replay.ask Replay.wait Caller both Replay.blank) /\
  fst (Convert _ Replay.ask Replay.wait Caller (withHTML "" both) Replay.blank)
  = inr (list_ascii_of_string "http://example.org") /\
  Convert _ Replay.ask Replay.wait Caller NewConversionOptions
  = ConvertHTML _ Replay.ask Replay.wait Caller NewConversionOptions.
Proof.
  intros both.
  pose proof (proj1 (Convert_prefers_URL _ Replay.ask Replay.wait Caller both)) as H.
  assert (Hurl : URL both <> "") by discriminate.
  destruct (H Hurl) as [Hconv Hhtml].
  split; [now rewrite Hconv|].
  split; [rewrite (Hhtml ""); vm_compute; reflexivity|].
  apply (proj2 (Convert_prefers_URL _ Replay.ask Replay.wait Caller NewConversionOptions)).
  reflexivity.
Defined.

(** C9, the code at failing inputs: with a selector to wait for and a
    timeout of three seconds the waiting context is a plain cancellable
    child of the session context, without a deadline; with a timeout of 0
    it is a child that expires after 0ns.  The first call of
    [afterNavigation] is [WaitReady] under that context. *)
Theorem selector_wait_deadline_swapped :
  let three := withWaitForSelector "#app" (3000 * Millisecond) NewConversionOptions in
  let zero := withWaitForSelector "#app" 0 NewConversionOptions in
  selectorContext three Caller = WithCancel Caller /\
  selectorContext zero Caller = WithTimeout Caller 0 /\
  Replay.log (snd (afterNavigation _ Replay.ask Replay.wait three Caller Replay.blank))
  = [@existT Type Call unit (WaitReady (WithCancel Caller) "#app")] /\
  Replay.log (snd (afterNavigation _ Replay.ask Replay.wait zero Caller Replay.blank))
  = [@existT Type Call unit (WaitReady (WithTimeout Caller 0) "#app")].
Proof. repeat split. Qed.

(** C4, the claim as stated fails on the empty request: it resolves to the
    default options, without a source and without an error, and [Convert]
    prints the empty HTML file. *)
Lemma empty_request_is_converted :
  NewConversionOptionsFromJSON Decimal.ParseFloat (Some (JObj ∅))
  = (Some NewConversionOptions, None) /\
  HTML NewConversionOptions = "" /\ URL NewConversionOptions = "" /\
  fst (Convert _ Replay.ask Replay.wait Caller NewConversionOptions Replay.blank)
  = inr (list_ascii_of_string "file://pdfire/tmp/html/6ba7b810.html").
Proof. repeat split; vm_compute; reflexivity. Qed.

(** C4, amended: when html and url are both absent or empty, neither
    resolution nor [Convert] fails with NoSource; what resolution returns
    then has an empty HTML and an empty URL, and [Convert] takes the HTML
    path with it. *)
Theorem no_source_is_not_rejected
    (ParseFloat : string -> option float) (jsonMap : gmap string json) :
  jsonMap !! "html" = None \/ jsonMap !! "html" = Some (JStr "") ->
  jsonMap !! "url" = None \/ jsonMap !! "url" = Some (JStr "") ->
  snd (NewConversionOptionsFromJSON ParseFloat (Some (JObj jsonMap)))
    <> Some ErrNoSource /\
  forall options,
    fst (NewConversionOptionsFromJSON ParseFloat (Some (JObj jsonMap))) = Some options ->
    HTML options = "" /\ URL options = "" /\
    forall World ask wait ctx,
      Convert World ask wait ctx options = ConvertHTML World ask wait ctx options /\
      forall w, fst (Convert World ask wait ctx options w) <> inl ErrNoSource.
Proof.
  intros Hhtml Hurl. split.
  - intros H. apply NewConversionOptionsFromJSON_error in H.
    destruct H as [H|H]; discriminate H.
  - intros options Hres. simpl in Hres.
    apply resolve_sources in Hres. destruct Hres as [Hh Hu].
    assert (HTML options = "") as Hh'.
    { unfold parseString in Hh. destruct Hhtml as [E|E]; rewrite E in Hh; congruence. }
    assert (URL options = "") as Hu'.
    { unfold parseString in Hu. destruct Hurl as [E|E]; rewrite E in Hu; congruence. }
    repeat split; try assumption.
    + now apply Convert_HTML.
    + intros w Hc.
      destruct (Convert World ask wait ctx options w) as [r w'] eqn:Hcw.
      simpl in Hc. subst r.
      exact (raises_Convert World ask wait ctx options _ _ _ Hcw).
Qed.

(** The statement above on a request with an empty html, no url and one
    more field. *)
Lemma no_source_is_not_rejected_witness :
  snd (NewConversionOptionsFromJSON Decimal.ParseFloat
         (Some (JObj {[ "html" := JStr ""; "landscape" := JBool true ]})))
    <> Some ErrNoSource /\
  forall options,
    fst (NewConversionOptionsFromJSON Decimal.ParseFloat
           (Some (JObj {[ "html" := JStr ""; "landscape" := JBool true ]})))
    = Some options ->
    HTML options = "" /\ URL options = "".
Proof.
  pose proof (no_source_is_not_rejected Decimal.ParseFloat
                {[ "html" := JStr ""; "landscape" := JBool true ]}) as H.
  destruct H as [Herr Hok].
  - right. reflexivity.
  - left. reflexivity.
  - split; [exact Herr|].
    intros options Hres. destruct (Hok options Hres) as (Hh & Hu & _). now split.
Defined.

(** * Properties of the merge coordinator *)


Lemma filled_le bs : (filled bs <= length bs)%nat.
Proof. induction bs as [|[b|] bs IH]; simpl; lia. Qed.

Lemma filled_insert bs i b :
  bs !! i = Some None -> filled (<[i := Some b]> bs) = S (filled bs).
Proof.
  revert i. induction bs as [|x bs IH]; intros [|i] H; simpl in *; try discriminate.
  - now injection H as ->.
  - destruct x; simpl; now rewrite (IH i H).
Qed.

Lemma filled_full bs i :
  filled bs = length bs -> (i < length bs)%nat -> exists b, bs !! i = Some (Some b).
Proof.
  revert i. induction bs as [|x bs IH]; intros i Hf Hi; simpl in *; [lia|].
  destruct x as [b|].
  - destruct i as [|i]; [now exists b|]. apply IH; lia.
  - pose proof (filled_le bs). lia.
Qed.

Lemma readers_full bs (f : nat -> bytes) :
  filled bs = length bs ->
  (forall i b, bs !! i = Some (Some b) -> b = f i) ->
  mapM id bs = Some (map f (seq 0 (length bs))).
Proof.
  intros Hf Hb.
  assert (Hbs : bs = Some <$> map f (seq 0 (length bs))).
  { apply list_eq. intros i. rewrite list_lookup_fmap.
    change (map f (seq 0 (length bs))) with (f <$> seq 0 (length bs)).
    rewrite list_lookup_fmap.
    destruct (decide (i < length bs)%nat) as [Hi|Hi].
    - destruct (filled_full bs i Hf Hi) as [b Hl]. rewrite Hl.
      rewrite (Hb _ _ Hl).
      assert (Hs : seq 0 (length bs) !! i = Some i) by (apply lookup_seq; lia).
      now rewrite Hs.
    - rewrite (lookup_ge_None_2 bs i) by lia.
      rewrite (lookup_ge_None_2 (seq 0 (length bs)) i); [reflexivity|].
      rewrite length_seq. lia. }
  rewrite Hbs at 1. now apply mapM_fmap_Some.
Qed.

Section CoordinatorFacts.

Variable World : Type.
Variable ask : forall R, Call R -> World -> (ext_error + R) * World.
Variable wait : forall R, Wait R -> World -> R * World.
Variable ctx : Context.
Variable options : MergeOptions.
Variable session : nat -> World.

Abbreviation N := (capacity options).
Abbreviation part' := (part World ask wait ctx options session).
Abbreviation failed' := (failed World ask wait ctx options session).
Abbreviation converted' := (converted World ask wait ctx session).
Abbreviation step' := (step World ask wait ctx options session).
Abbreviation run' := (run World ask wait ctx options session).
Abbreviation inv' := (inv World ask wait ctx options session).


Lemma converted_result i o :
  documents options !! i = Some o ->
  snd (converted' i o) = {| index := i; buf := part' i |}.
Proof.
  intros Ho. unfold part. rewrite Ho. unfold converted.
  now destruct (fst (Convert _ _ _ _ _ _)).
Qed.

Lemma inv_Merge : inv' (Merge options).
Proof.
  split; simpl.
  - apply length_replicate.
  - apply length_replicate.
  - intros r Hr. now apply elem_of_nil in Hr.
  - constructor.
  - intros i b Hb. apply lookup_replicate_1 in Hb. now destruct Hb.
  - induction N; simpl; congruence.
  - exact I.
Qed.

(** Sending the result of goroutine [i], which is not yet finished. *)
Lemma inv_sendRes st st' i :
  inv' st -> (i < N)%nat -> tasks st !! i <> Some Finished ->
  sendRes options {| index := i; buf := part' i |} i st = Some st' ->
  inv' st'.
Proof.
  intros [Ht Hb Hc Hn Hs Hk Ha] Hi Hpc. unfold sendRes.
  destruct (_ <? _)%nat; [|discriminate]. intros [= <-].
  assert (Hnil : bufs st !! i = Some None).
  { destruct (lookup_lt_is_Some_2 (bufs st) i) as [[b|] Hl]; [lia| |exact Hl].
    exfalso. apply Hpc. exact (proj2 (Hs _ _ Hl)). }
  assert (Hfresh : forall r, r ∈ cres st -> index r <> i).
  { intros r Hr E. apply Hpc. rewrite <- E. exact (proj2 (proj2 (Hc r Hr))). }
  split; simpl.
  - now rewrite length_insert.
  - assumption.
  - intros r Hr. apply elem_of_app in Hr. destruct Hr as [Hr|Hr].
    + destruct (Hc r Hr) as (H1 & H2 & H3). repeat split; try assumption.
      rewrite list_lookup_insert_ne; [assumption|]. intros E. now apply (Hfresh r Hr).
    + apply list_elem_of_singleton in Hr. subst r. simpl. repeat split; try assumption.
      apply list_lookup_insert_eq. lia.
  - rewrite fmap_app. simpl. apply NoDup_app. repeat split.
    + assumption.
    + intros j Hj Hj'. apply list_elem_of_singleton in Hj'. subst j.
      apply list_elem_of_fmap in Hj. destruct Hj as (r & E & Hr).
      now apply (Hfresh r Hr).
    + apply NoDup_singleton.
  - intros j b Hj. destruct (Hs j b Hj) as [H1 H2]. split; [assumption|].
    destruct (decide (i = j)) as [->|Hne].
    + apply list_lookup_insert_eq. lia.
    + now rewrite list_lookup_insert_ne.
  - assumption.
  - assumption.
Qed.

Lemma inv_sendErr st st' i e :
  inv' st -> tasks st !! i = Some Converting ->
  sendErr options e i st = Some st' ->
  inv' st'.
Proof.
  intros [Ht Hb Hc Hn Hs Hk Ha] Hpc. unfold sendErr.
  destruct (_ <? _)%nat; [|discriminate]. intros [= <-].
  assert (Hother : forall j, tasks st !! j = Some Finished ->
                             <[i := Reported]> (tasks st) !! j = Some Finished).
  { intros j Hj. rewrite list_lookup_insert_ne; [assumption|]. congruence. }
  split; simpl; try assumption.
  - now rewrite length_insert.
  - intros r Hr. destruct (Hc r Hr) as (H1 & H2 & H3). auto.
  - intros j b Hj. destruct (Hs j b Hj) as [H1 H2]. auto.
Qed.

Lemma inv_forMerge st st' i : inv' st -> forMerge _ ask wait ctx options session i st = Some st' -> inv' st'.
Proof.
  intros Hinv. unfold forMerge.
  destruct (tasks st !! i) as [[| |]|] eqn:Hpc; try discriminate;
    destruct (documents options !! i) as [o|] eqn:Ho; try discriminate.
  - pose proof (converted_result i o Ho) as Hr.
    destruct (converted' i o) as [[err|] r]; simpl in Hr.
    + now apply inv_sendErr.
    + subst r. apply inv_sendRes; [assumption| |congruence].
      apply lookup_lt_Some in Ho. exact Ho.
  - rewrite (converted_result i o Ho). apply inv_sendRes; [assumption| |congruence].
    apply lookup_lt_Some in Ho. exact Ho.
Qed.

Lemma inv_mergeDocs st st' sel : inv' st -> mergeDocs sel st = Some st' -> inv' st'.
Proof.
  intros [Ht Hb Hc Hn Hs Hk Ha]. unfold mergeDocs.
  destruct (at_ st) eqn:Hat; try discriminate.
  destruct (Nat.eqb_spec (c st) (length (bufs st))) as [Hfull|Hnot].
  - intros [= <-]. split; simpl; try assumption.
    unfold readers. rewrite (readers_full (bufs st) part').
    + now rewrite Hb.
    + congruence.
    + intros i b Hi. exact (proj1 (Hs i b Hi)).
  - destruct sel.
    + destruct (cerr st) as [|err rest]; [discriminate|].
      intros [= <-]. now split.
    + destruct (cres st) as [|res rest] eqn:Hq; [discriminate|].
      destruct (Hc res) as (H1 & H2 & H3); [apply elem_of_cons; now left|].
      assert (Hlt : (index res < length (bufs st))%nat) by (now apply lookup_lt_Some in H2).
      apply Nat.ltb_lt in Hlt. rewrite Hlt. intros [= <-].
      simpl in Hn. apply NoDup_cons in Hn. destruct Hn as [Hnotin Hn].
      split; simpl; try assumption.
      * now rewrite length_insert.
      * intros r Hr.
        destruct (Hc r) as (H1' & H2' & H3'); [apply elem_of_cons; now right|].
        repeat split; try assumption.
        rewrite list_lookup_insert_ne; [assumption|].
        intros E. apply Hnotin. rewrite E.
        apply list_elem_of_fmap_2. exact Hr.
      * intros i b Hi. apply list_lookup_insert_Some in Hi.
        destruct Hi as [(Ei & Eb & _)|[_ Hi]]; [|now apply Hs].
        subst i. injection Eb as <-. now split.
      * rewrite Hk. symmetry. now apply filled_insert.
    + intros [= <-]. now split.
Qed.

Lemma inv_step ev st st' : inv' st -> step' ev st = Some st' -> inv' st'.
Proof. destruct ev; [apply inv_forMerge | apply inv_mergeDocs]. Qed.

Lemma inv_run sched st st' : inv' st -> run' sched st = Some st' -> inv' st'.
Proof.
  revert st. induction sched as [|ev sched IH]; intros st Hinv; simpl.
  - now intros [= <-].
  - destruct (step' ev st) as [st1|] eqn:Hstep; [|discriminate].
    apply IH. now apply (inv_step ev st).
Qed.

End CoordinatorFacts.

Local Open Scope list_scope.

Section Schedules.

Variable World : Type.
Variable ask : forall R, Call R -> World -> (ext_error + R) * World.
Variable wait : forall R, Wait R -> World -> R * World.
Variable ctx : Context.
Variable options : MergeOptions.
Variable session : nat -> World.

Abbreviation N := (capacity options).
Abbreviation part' := (part World ask wait ctx options session).
Abbreviation failed' := (failed World ask wait ctx options session).
Abbreviation converted' := (converted World ask wait ctx session).
Abbreviation forMerge' := (forMerge World ask wait ctx options session).
Abbreviation run' := (run World ask wait ctx options session).
Abbreviation completion' := (completion World ask wait ctx options session).

Lemma run_app sched1 sched2 st :
  run' (sched1 ++ sched2) st
  = match run' sched1 st with Some st' => run' sched2 st' | None => None end.
Proof.
  revert st. induction sched1 as [|ev sched1 IH]; intros st; simpl; [reflexivity|].
  destruct (step _ _ _ _ _ _ ev st); [apply IH | reflexivity].
Qed.

(** A goroutine whose conversion succeeded sends its result. *)
Lemma forMerge_ok st i o :
  tasks st !! i = Some Converting ->
  documents options !! i = Some o ->
  fst (converted' i o) = None ->
  (length (cres st) < N)%nat ->
  forMerge' i st
  = Some {| tasks := <[i := Finished]> (tasks st);
            cres := cres st ++ [{| index := i; buf := part' i |}];
            cerr := cerr st; bufs := bufs st; c := c st; at_ := at_ st |}.
Proof.
  intros Hpc Ho Hok Hcap. unfold forMerge. rewrite Hpc, Ho.
  pose proof (converted_result _ ask wait ctx options session i o Ho) as Hr.
  destruct (converted' i o) as [err r]. simpl in Hok, Hr. subst err r.
  unfold sendRes. apply Nat.ltb_lt in Hcap. now rewrite Hcap.
Qed.

(** A goroutine whose conversion failed' sends the error, and then its
    result all the same. *)
Lemma forMerge_failed st i o err :
  tasks st !! i = Some Converting ->
  documents options !! i = Some o ->
  fst (converted' i o) = Some err ->
  (length (cerr st) < N)%nat ->
  forMerge' i st
  = Some {| tasks := <[i := Reported]> (tasks st);
            cres := cres st; cerr := cerr st ++ [err];
            bufs := bufs st; c := c st; at_ := at_ st |}.
Proof.
  intros Hpc Ho Hfail Hcap. unfold forMerge. rewrite Hpc, Ho.
  destruct (converted' i o) as [e r]. simpl in Hfail. subst e.
  unfold sendErr. apply Nat.ltb_lt in Hcap. now rewrite Hcap.
Qed.

Lemma forMerge_reported st i o :
  tasks st !! i = Some Reported ->
  documents options !! i = Some o ->
  (length (cres st) < N)%nat ->
  forMerge' i st
  = Some {| tasks := <[i := Finished]> (tasks st);
            cres := cres st ++ [{| index := i; buf := part' i |}];
            cerr := cerr st; bufs := bufs st; c := c st; at_ := at_ st |}.
Proof.
  intros Hpc Ho Hcap. unfold forMerge. rewrite Hpc, Ho.
  rewrite (converted_result _ ask wait ctx options session i o Ho).
  unfold sendRes. apply Nat.ltb_lt in Hcap. now rewrite Hcap.
Qed.

(** Running the goroutines of [q] to their end, one after the other,
    queues their results in that order. *)
Lemma run_completion q : forall st,
  NoDup q ->
  (forall i, i ∈ q -> (i < N)%nat /\ tasks st !! i = Some Converting) ->
  length (tasks st) = N ->
  (length (cres st) + length q <= N)%nat ->
  (length (cerr st) + length q <= N)%nat ->
  exists st',
    run' (completion' q) st = Some st' /\
    cres st' = cres st ++ map (fun i => {| index := i; buf := part' i |}) q /\
    bufs st' = bufs st /\ c st' = c st /\ at_ st' = at_ st.
Proof.
  induction q as [|i q IH]; intros st Hnd Hq Ht Hres Herr.
  - exists st. simpl. now rewrite app_nil_r.
  - apply NoDup_cons in Hnd. destruct Hnd as [Hi Hnd].
    destruct (Hq i) as [HiN Hpc]; [apply elem_of_cons; now left|].
    destruct (lookup_lt_is_Some_2 (documents options) i HiN) as [o Ho].
    simpl in Hres, Herr.
    assert (Hrest : forall pc j, j ∈ q ->
              (j < N)%nat /\ <[i := pc]> (tasks st) !! j = Some Converting).
    { intros pc j Hj. destruct (Hq j) as [HjN Hj']; [apply elem_of_cons; now right|].
      split; [assumption|]. rewrite list_lookup_insert_ne; [assumption|].
      intros ->. contradiction. }
    unfold completion. simpl. fold (completion' q).
    unfold failed. rewrite Ho.
    destruct (fst (converted' i o)) as [err|] eqn:Hfst.
    + simpl. rewrite (forMerge_failed st i o err Hpc Ho Hfst) by lia.
      rewrite (forMerge_reported _ i o); simpl;
        [ | apply list_lookup_insert_eq; lia | assumption | lia ].
      match goal with |- context [run' (completion' q) ?s] =>
        destruct (IH s) as (st' & Hrun & Hc & Hb & Hk & Ha) end; simpl.
      * assumption.
      * intros j Hj. destruct (Hrest Reported j Hj) as [HjN Hj'].
        split; [assumption|]. rewrite list_lookup_insert_ne; [assumption|].
        intros ->. contradiction.
      * now rewrite !length_insert.
      * rewrite length_app. simpl. lia.
      * rewrite length_app. simpl. lia.
      * exists st'. simpl in *. rewrite Hrun, Hc, <- app_assoc. auto.
    + simpl. rewrite (forMerge_ok st i o Hpc Ho Hfst) by lia.
      match goal with |- context [run' (completion' q) ?s] =>
        destruct (IH s) as (st' & Hrun & Hc & Hb & Hk & Ha) end; simpl.
      * assumption.
      * intros j Hj. now apply Hrest.
      * now rewrite length_insert.
      * rewrite length_app. simpl. lia.
      * lia.
      * exists st'. simpl in *. rewrite Hrun, Hc, <- app_assoc. auto.
Qed.

(** Receiving every queued result fills the loop counter. *)
Lemma run_receive q : forall st,
  cres st = q ->
  at_ st = Collecting ->
  (c st + length q = length (bufs st))%nat ->
  (forall r, r ∈ q -> (index r < length (bufs st))%nat) ->
  exists st',
    run' (replicate (length q) (Iterate OnRes)) st = Some st' /\
    at_ st' = Collecting /\ c st' = length (bufs st').
Proof.
  induction q as [|res q IH]; intros st Hq Hat Hc Hidx.
  - exists st. simpl in *. repeat split; [assumption | lia].
  - simpl in Hc. simpl. unfold mergeDocs. rewrite Hat, Hq.
    destruct (Nat.eqb_spec (c st) (length (bufs st))) as [E|_]; [lia|].
    assert (Hlt : (index res <? length (bufs st))%nat = true).
    { apply Nat.ltb_lt, Hidx, elem_of_cons. now left. }
    rewrite Hlt.
    match goal with |- context [run' _ ?s] =>
      destruct (IH s) as (st' & Hrun & Ha & Hk) end; simpl.
    + reflexivity.
    + reflexivity.
    + rewrite length_insert. lia.
    + intros r Hr. rewrite length_insert. apply Hidx, elem_of_cons. now right.
    + exists st'. auto.
Qed.

(** For every order in which the goroutines complete there is a run' of
    [mergeDocs] that collects every result and reaches [api.Merge] with
    the parts in document order, whether conversions failed' or not. *)
Lemma run_reaches_merge p :
  Permutation p (seq 0 N) ->
  exists st,
    run' (completion' p ++ replicate N (Iterate OnRes) ++ [Iterate OnRes])
        (Merge options) = Some st /\
    at_ st = Merging (map part' (seq 0 N)).
Proof.
  intros Hp.
  assert (Hlen : length p = N) by (rewrite (Permutation_length Hp); apply length_seq).
  destruct (run_completion p (Merge options)) as (st1 & Hrun1 & Hc1 & Hb1 & Hk1 & Ha1).
  - rewrite Hp. apply NoDup_seq.
  - intros i Hi. rewrite Hp in Hi. apply elem_of_seq in Hi. split; [lia|].
    simpl. apply lookup_replicate_2. lia.
  - simpl. apply length_replicate.
  - simpl. lia.
  - simpl. lia.
  - simpl in Hc1, Hb1, Hk1, Ha1.
    destruct (run_receive (cres st1) st1) as (st2 & Hrun2 & Ha2 & Hk2).
    + reflexivity.
    + assumption.
    + rewrite Hk1, Hb1, Hc1, length_map, length_replicate. lia.
    + intros r Hr. rewrite Hc1 in Hr. apply list_elem_of_In, in_map_iff in Hr.
      destruct Hr as (i & <- & Hi). simpl.
      rewrite Hb1, length_replicate.
      apply list_elem_of_In in Hi. rewrite Hp in Hi. apply elem_of_seq in Hi. lia.
    + assert (Hq : length (cres st1) = N) by (now rewrite Hc1, length_map).
      rewrite Hq in Hrun2.
      assert (Hrun : run' (completion' p ++ replicate N (Iterate OnRes) ++ [Iterate OnRes])
                       (Merge options)
                     = Some (leave (readers (bufs st2)) st2)).
      { rewrite run_app, Hrun1, run_app, Hrun2. simpl. unfold mergeDocs.
        rewrite Ha2. apply Nat.eqb_eq in Hk2. now rewrite Hk2. }
      pose proof (inv_run _ ask wait ctx options session _ _ _
                    (inv_Merge _ ask wait ctx options session) Hrun) as Hinv.
      eexists. split; [exact Hrun|].
      destruct Hinv as [_ _ _ _ _ _ Hat]. simpl in *.
      unfold readers in *.
      destruct (mapM id (bufs st2)); [congruence | contradiction].
Qed.

End Schedules.

(** C1: in every state that a run of [Merge] reaches with [mergeDocs] at
    [api.Merge], whatever the interleaving of the goroutines and of the
    loop, the readers are one per document and the one at position [i] is
    over the buffer that [forMerge] created for document [i]; and for every
    order in which the conversions complete such a run exists. *)
Theorem merge_parts_in_document_order
    (World : Type)
    (ask : forall R, Call R -> World -> (ext_error + R) * World)
    (wait : forall R, Wait R -> World -> R * World)
    (ctx : Context) (options : MergeOptions) (session : nat -> World) :
  (forall sched st parts,
     run World ask wait ctx options session sched (Merge options) = Some st ->
     at_ st = Merging parts ->
     length parts = length (Documents options) /\
     forall i, (i < length (Documents options))%nat ->
       parts !! i = Some (part World ask wait ctx options session i)) /\
  (forall order,
     Permutation order (seq 0 (length (Documents options))) ->
     exists st,
       run World ask wait ctx options session
         (completion World ask wait ctx options session order
          ++ replicate (length (Documents options)) (Iterate OnRes)
          ++ [Iterate OnRes])
         (Merge options) = Some st /\
       at_ st = Merging (map (part World ask wait ctx options session)
                             (seq 0 (length (Documents options))))).
Proof.
  assert (HN : capacity options = length (Documents options)).
  { unfold capacity, documents. apply length_map. }
  split.
  - intros sched st parts Hrun Hat.
    pose proof (inv_run _ ask wait ctx options session _ _ _
                  (inv_Merge _ ask wait ctx options session) Hrun) as Hinv.
    destruct Hinv as [_ _ _ _ _ _ Hparts]. rewrite Hat, HN in Hparts. subst parts.
    split; [now rewrite length_map, length_seq|].
    intros i Hi.
    change (map ?f ?l) with (f <$> l). rewrite list_lookup_fmap.
    assert (Hs : seq 0 (length (Documents options)) !! i = Some i)
      by (apply lookup_seq; lia).
    now rewrite Hs.
  - intros order Hp. rewrite <- HN in *. now apply run_reaches_merge.
Qed.


(** The statement above on three documents: once with the loop running
    between the goroutines, once with the conversions completing in the
    order 2, 0, 1 before the loop starts. *)
Lemma merge_parts_in_document_order_witness :
  (exists st parts,
     run _ Replay.ask Replay.wait Caller threePages (fun _ => Replay.blank)
       [Advance 2; Iterate OnRes; Advance 0; Advance 1;
        Iterate OnRes; Iterate OnRes; Iterate OnRes]
       (Merge threePages) = Some st /\
     at_ st = Merging parts /\
     parts !! 0%nat = Some (list_ascii_of_string "http://a") /\
     parts !! 2%nat = Some (list_ascii_of_string "http://c")) /\
  (exists st,
     run _ Replay.ask Replay.wait Caller threePages (fun _ => Replay.blank)
       ([Advance 2; Advance 0; Advance 1]
        ++ [Iterate OnRes; Iterate OnRes; Iterate OnRes] ++ [Iterate OnRes])
       (Merge threePages) = Some st /\
     at_ st = Merging (map list_ascii_of_string ["http://a"; "http://b"; "http://c"])).
Proof.
  pose proof (merge_parts_in_document_order _ Replay.ask Replay.wait Caller
                threePages (fun _ => Replay.blank)) as [Hall Hsome].
  split.
  - assert (Hres : exists st,
              run _ Replay.ask Replay.wait Caller threePages (fun _ => Replay.blank)
                [Advance 2; Iterate OnRes; Advance 0; Advance 1;
                 Iterate OnRes; Iterate OnRes; Iterate OnRes]
                (Merge threePages) = Some st /\
              exists parts, at_ st = Merging parts).
    { vm_compute. eauto. }
    destruct Hres as (st & Hrun & parts & Hat).
    exists st, parts. split; [exact Hrun|]. split; [exact Hat|].
    destruct (Hall _ _ _ Hrun Hat) as [_ Hparts].
    split.
    + etransitivity; [apply (Hparts 0%nat); simpl; lia | vm_compute; reflexivity].
    + etransitivity; [apply (Hparts 2%nat); simpl; lia | vm_compute; reflexivity].
  - destruct (Hsome [2; 0; 1]%nat) as (st & Hrun & Hat).
    + exact (Permutation_cons_app [0; 1]%nat []%list 2%nat (Permutation_refl _)).
    + exists st. split; [exact Hrun|]. rewrite Hat. vm_compute. reflexivity.
Defined.


(** C2, the code at a failing input: the conversion of document 2 fails
    and its goroutine sends the error and then its empty buffer; a run in
    which the select takes the five results reaches [api.Merge], with the
    error still unread on [cerr]. *)
Theorem merge_step_reached_despite_error :
  failed _ Replay.ask Replay.wait Caller fivePages (fun _ => Replay.blank) 2 = true /\
  exists st,
    run _ Replay.ask Replay.wait Caller fivePages (fun _ => Replay.blank)
      ([Advance 0; Advance 1; Advance 2; Advance 2; Advance 3; Advance 4]
       ++ replicate 5 (Iterate OnRes) ++ [Iterate OnRes])
      (Merge fivePages) = Some st /\
    at_ st = Merging [ list_ascii_of_string "http://d0";
                       list_ascii_of_string "http://d1";
                       [];
                       list_ascii_of_string "http://d3";
                       list_ascii_of_string "http://d4" ] /\
    cerr st = [External (Failure 1)].
Proof.
  split; [vm_compute; reflexivity|].
  eexists. split; [vm_compute; reflexivity|]. split; reflexivity.
Qed.

(** The same for any request: whichever conversions fail, some run takes
    every result off [cres] and reaches [api.Merge]. *)
Lemma merge_step_always_reachable
    (World : Type)
    (ask : forall R, Call R -> World -> (ext_error + R) * World)
    (wait : forall R, Wait R -> World -> R * World)
    (ctx : Context) (options : MergeOptions) (session : nat -> World) :
  exists sched st parts,
    run World ask wait ctx options session sched (Merge options) = Some st /\
    at_ st = Merging parts.
Proof.
  destruct (run_reaches_merge World ask wait ctx options session
              (seq 0 (capacity options)) (Permutation_refl _)) as (st & Hrun & Hat).
  eauto.
Qed.

(** * Passwords of the documents of a merge *)


Lemma clearPasswords_noPasswords o : noPasswords (clearPasswords o).
Proof. now split. Qed.

Lemma resolveDocuments_noPasswords ParseFloat docdata docoptions :
  fst (resolveDocuments ParseFloat docdata) = Some docoptions ->
  Forall noPasswords docoptions.
Proof.
  revert docoptions. induction docdata as [|data rest IH]; intros docoptions; simpl.
  - intros [= <-]. constructor.
  - destruct (NewConversionOptionsFromJSON ParseFloat (Some data)) as [[o|] [e|]];
      try discriminate.
    destruct (resolveDocuments ParseFloat rest) as [[ds|] [e|]]; try discriminate.
    simpl. intros [= <-]. constructor.
    + apply clearPasswords_noPasswords.
    + now apply IH.
Qed.

(** C3: the documents of a MergeSpec resolved from JSON have empty owner
    and user passwords, and so have the documents [Merge] hands to its
    goroutines, whatever the MergeSpec it was given; for such a document
    the encryption step of its session returns the bytes as they are,
    without a call to the PDF engine. *)
Theorem merge_documents_without_passwords
    (ParseFloat : string -> option float) :
  (forall body options,
     fst (NewMergeOptionsFromJSON ParseFloat body) = Some options ->
     Forall noPasswords (Documents options)) /\
  (forall options, Forall noPasswords (documents options)) /\
  (forall options i o,
     documents options !! i = Some o ->
     noPasswords o /\
     forall World ask pdf,
       secure World ask pdf (OwnerPassword o) (UserPassword o) = ret World pdf).
Proof.
  split; [|split].
  - intros body options. unfold NewMergeOptionsFromJSON.
    destruct (decodeMap body) as [jsonMap|]; [|discriminate].
    destruct (jsonMap !! "documents") as [[| | | |docdata|]|]; try discriminate.
    destruct (resolveDocuments ParseFloat docdata) as [[docoptions|] [e|]] eqn:Hdocs;
      try discriminate.
    destruct (parseString jsonMap "ownerPassword" "") as [? [?|]]; [discriminate|].
    destruct (parseString jsonMap "userPassword" "") as [? [?|]]; [discriminate|].
    simpl. intros [= <-]. simpl.
    apply (resolveDocuments_noPasswords ParseFloat docdata). now rewrite Hdocs.
  - intros options. unfold documents. apply Forall_forall. intros o Ho.
    apply list_elem_of_In, in_map_iff in Ho. destruct Ho as (o' & <- & _).
    apply clearPasswords_noPasswords.
  - intros options i o Ho.
    unfold documents in Ho.
    change (map ?f ?l) with (f <$> l) in Ho. rewrite list_lookup_fmap in Ho.
    destruct (Documents options !! i) as [o'|]; [|discriminate].
    injection Ho as <-. split; [apply clearPasswords_noPasswords | reflexivity].
Qed.


(** The statement above on a merge request whose two documents carry
    passwords. *)
Lemma merge_documents_without_passwords_witness :
  exists options,
    fst (NewMergeOptionsFromJSON Decimal.ParseFloat (Some lockedMerge)) = Some options /\
    MergeOwnerPassword options = "owner-pw" /\
    length (Documents options) = 2%nat /\
    Forall noPasswords (Documents options).
Proof.
  eexists. split; [vm_compute; reflexivity|].
  split; [reflexivity|]. split; [reflexivity|].
  apply (proj1 (merge_documents_without_passwords Decimal.ParseFloat) (Some lockedMerge)).
  vm_compute. reflexivity.
Defined.

(** * Further properties of the option resolver *)

Section ResolveFields.

Variable ParseFloat : string -> option float.

(** What a successful resolution says about the request: every getter
    returned without error, and the options hold what the getters
    returned. *)
Lemma resolve_fields (jsonMap : gmap string json) o :
  fst (resolve ParseFloat jsonMap) = Some o ->
  parseString jsonMap "html" "" = (HTML o, None) /\
  parseString jsonMap "url" "" = (URL o, None) /\
  parseBool jsonMap "landscape" false = (Landscape (PDFParams o), None) /\
  parseFloat64 jsonMap "scale" 1.0%float = (Scale (PDFParams o), None) /\
  (exists pw ph,
     parseUnit ParseFloat jsonMap "paperWidth" 8.5%float = (pw, None) /\
     parseUnit ParseFloat jsonMap "paperHeight" 11.0%float = (ph, None) /\
     applyFormat jsonMap (pw, ph)
     = (PaperWidth (PDFParams o), PaperHeight (PDFParams o))) /\
  fst (parseMarginsFix ParseFloat jsonMap)
  = (MarginTop (PDFParams o), MarginRight (PDFParams o),
     MarginBottom (PDFParams o), MarginLeft (PDFParams o)) /\
  parseInt64 jsonMap "viewportWidth" 1920 = (ViewportWidth o, None) /\
  parseInt64 jsonMap "viewportHeight" 1080 = (ViewportHeight o, None) /\
  parseDuration jsonMap "waitForSelectorTimeout" 0 = (WaitForSelectorTimeout o, None) /\
  parseStringOnly jsonMap "waitUntil" "load" ["load"; "dom"] = (WaitUntil o, None) /\
  parseDuration jsonMap "waitUntilTimeout" 0 = (WaitUntilTimeout o, None) /\
  parseDuration jsonMap "delay" 0 = (Delay o, None) /\
  parseDuration jsonMap "timeout" 0 = (Timeout o, None) /\
  parseHeaders jsonMap = (Headers o, None) /\
  parseEmulateMedia jsonMap MediaScreen = (EmulateMedia o, None) /\
  parseString jsonMap "ownerPassword" "" = (OwnerPassword o, None) /\
  parseString jsonMap "userPassword" "" = (UserPassword o, None) /\
  Watermark o = None.
Proof.
  unfold resolve.
  repeat match goal with
  | |- context [applyFormat ?m ?wh] =>
      let H := fresh "Hfmt" in destruct (applyFormat m wh) as [? ?] eqn:H
  | |- context [parseMarginsFix ?pf ?m] =>
      let H := fresh "Hmar" in
      destruct (parseMarginsFix pf m) as [[[[? ?] ?] ?] ?] eqn:H
  | |- context [match ?g with (_, _) => _ end] =>
      let H := fresh "Hget" in destruct g as [? [?|]] eqn:H; [discriminate|]
  end.
  simpl. intros [= <-]. simpl.
  repeat match goal with |- _ /\ _ => split end;
    try assumption; try reflexivity.
  eexists _, _. repeat split; eassumption.
Qed.

End ResolveFields.

Section Absent.

Variable ParseFloat : string -> option float.
Variable jsonMap : gmap string json.

Lemma parseString_absent key def :
  jsonMap !! key = None -> parseString jsonMap key def = (def, None).
Proof. intros H. unfold parseString. now rewrite H. Qed.

Lemma parseBool_absent key def :
  jsonMap !! key = None -> parseBool jsonMap key def = (def, None).
Proof. intros H. unfold parseBool. now rewrite H. Qed.

Lemma parseInt64_absent key def :
  jsonMap !! key = None -> parseInt64 jsonMap key def = (def, None).
Proof. intros H. unfold parseInt64. now rewrite H. Qed.

Lemma parseFloat64_absent key def :
  jsonMap !! key = None -> parseFloat64 jsonMap key def = (def, None).
Proof. intros H. unfold parseFloat64. now rewrite H. Qed.

Lemma parseDuration_absent key def :
  jsonMap !! key = None -> parseDuration jsonMap key def = (0, None).
Proof. intros H. unfold parseDuration. now rewrite parseInt64_absent. Qed.

Lemma parseMarginsFix_absent :
  (forall key, key ∈ marginKeys -> jsonMap !! key = None) ->
  parseMarginsFix ParseFloat jsonMap = ((0.4, 0.4, 0.4, 0.4)%float, None).
Proof.
  intros H.
  assert (Hk : forall key, bool_decide (key ∈ marginKeys) = true ->
                           jsonMap !! key = None).
  { intros key Hkey. apply H. now apply bool_decide_eq_true in Hkey. }
  unfold parseMarginsFix, parseMargins.
  rewrite parseFloat64_absent, parseString_absent by (apply Hk; reflexivity).
  rewrite !parseUnit_absent by (apply Hk; reflexivity).
  reflexivity.
Qed.

End Absent.

(** X1: a request that has none of the keys the resolver reads, whatever
    else it has, resolves to exactly the default options; so does the JSON
    value null. *)
Theorem resolve_defaults
    (ParseFloat : string -> option float) (jsonMap : gmap string json) :
  (forall key, key ∈ requestKeys -> jsonMap !! key = None) ->
  NewConversionOptionsFromJSON ParseFloat (Some (JObj jsonMap))
  = (Some NewConversionOptions, None) /\
  NewConversionOptionsFromJSON ParseFloat (Some JNull)
  = (Some NewConversionOptions, None).
Proof.
  intros Habsent.
  assert (Hnone : forall key, bool_decide (key ∈ requestKeys) = true ->
                              jsonMap !! key = None).
  { intros key Hk. apply Habsent. now apply bool_decide_eq_true in Hk. }
  split.
  - change (NewConversionOptionsFromJSON ParseFloat (Some (JObj jsonMap)))
      with (resolve ParseFloat jsonMap).
    unfold resolve.
    rewrite (parseMarginsFix_absent ParseFloat jsonMap).
    2:{ intros key Hk. apply Hnone. unfold marginKeys in Hk.
        repeat (apply elem_of_cons in Hk; destruct Hk as [->|Hk]; [reflexivity|]).
        now apply elem_of_nil in Hk. }
    unfold applyFormat, parseStringOnly, parseEmulateMedia, parseHeaders.
    rewrite !(parseString_absent jsonMap), !(parseBool_absent jsonMap),
      !(parseFloat64_absent jsonMap), !(parseUnit_absent ParseFloat jsonMap),
      !(parseInt64_absent jsonMap), !(parseDuration_absent jsonMap)
      by (apply Hnone; reflexivity).
    rewrite (Hnone "headers" eq_refl), (Hnone "emulateMedia" eq_refl).
    reflexivity.
  - reflexivity.
Qed.

(** The statement above on a request with two keys the resolver does not
    read. *)
Lemma resolve_defaults_witness :
  NewConversionOptionsFromJSON Decimal.ParseFloat
    (Some (JObj {[ "title" := JStr "report"; "copies" := JNum 2%float ]}))
  = (Some NewConversionOptions, None).
Proof.
  apply (resolve_defaults Decimal.ParseFloat
           {[ "title" := JStr "report"; "copies" := JNum 2%float ]}).
  intros key Hkey.
  unfold requestKeys in Hkey.
  repeat (apply elem_of_cons in Hkey; destruct Hkey as [->|Hkey];
          [vm_compute; reflexivity|]).
  now apply elem_of_nil in Hkey.
Defined.

Section Blame.

Variable ParseFloat : string -> option float.

Lemma blames_intro (jsonMap : gmap string json) key value x :
  bool_decide (key ∈ requestKeys) = true ->
  jsonMap !! key = Some x ->
  blames jsonMap (ParseError key value).
Proof.
  intros Hk Hx. exists key, value. split; [reflexivity|]. split.
  - now apply bool_decide_eq_true in Hk.
  - now exists x.
Qed.

Lemma parseBool_blames (jsonMap : gmap string json) key def v e :
  bool_decide (key ∈ requestKeys) = true ->
  parseBool jsonMap key def = (v, Some e) -> blames jsonMap e.
Proof.
  intros Hk. unfold parseBool. destruct (jsonMap !! key) as [[]|] eqn:Hl;
    intros; simplify_eq; eapply blames_intro; eassumption.
Qed.

Lemma parseInt64_blames (jsonMap : gmap string json) key def v e :
  bool_decide (key ∈ requestKeys) = true ->
  parseInt64 jsonMap key def = (v, Some e) -> blames jsonMap e.
Proof.
  intros Hk. unfold parseInt64. destruct (jsonMap !! key) as [[]|] eqn:Hl;
    intros; simplify_eq; eapply blames_intro; eassumption.
Qed.

Lemma parseFloat64_blames (jsonMap : gmap string json) key def v e :
  bool_decide (key ∈ requestKeys) = true ->
  parseFloat64 jsonMap key def = (v, Some e) -> blames jsonMap e.
Proof.
  intros Hk. unfold parseFloat64. destruct (jsonMap !! key) as [[]|] eqn:Hl;
    intros; simplify_eq; eapply blames_intro; eassumption.
Qed.

Lemma parseDuration_blames (jsonMap : gmap string json) key def v e :
  bool_decide (key ∈ requestKeys) = true ->
  parseDuration jsonMap key def = (v, Some e) -> blames jsonMap e.
Proof.
  intros Hk. unfold parseDuration.
  destruct (parseInt64 jsonMap key 0) as [val [err|]] eqn:H; [|discriminate].
  intros [= <- <-]. eapply parseInt64_blames; eassumption.
Qed.

Lemma parseString_blames (jsonMap : gmap string json) key def v e :
  bool_decide (key ∈ requestKeys) = true ->
  parseString jsonMap key def = (v, Some e) -> blames jsonMap e.
Proof.
  intros Hk. unfold parseString. destruct (jsonMap !! key) as [[]|] eqn:Hl;
    intros; simplify_eq; eapply blames_intro; eassumption.
Qed.

(** With a default that is allowed, an absent key is no error. *)
Lemma parseStringOnly_blames (jsonMap : gmap string json) key def allowed v e :
  bool_decide (key ∈ requestKeys) = true ->
  existsb (fun a => String.eqb a def) allowed = true ->
  parseStringOnly jsonMap key def allowed = (v, Some e) -> blames jsonMap e.
Proof.
  intros Hk Hdef. unfold parseStringOnly.
  destruct (parseString jsonMap key def) as [param [err|]] eqn:Hp.
  - intros [= <- <-]. eapply parseString_blames; eassumption.
  - unfold parseString in Hp.
    destruct (jsonMap !! key) as [x|] eqn:Hl.
    + destruct (existsb (fun a => String.eqb a param) allowed); intros H.
      * discriminate H.
      * injection H as <- <-. eapply blames_intro; eassumption.
    + injection Hp as <-. rewrite Hdef. discriminate.
Qed.

Lemma parseUnit_blames (jsonMap : gmap string json) key def v e :
  bool_decide (key ∈ requestKeys) = true ->
  parseUnit ParseFloat jsonMap key def = (v, Some e) -> blames jsonMap e.
Proof.
  intros Hk. unfold parseUnit. destruct (jsonMap !! key) as [[| | |s| |]|] eqn:Hl;
    try (intros; simplify_eq; eapply blames_intro; eassumption).
  destruct (stringToInch ParseFloat s) as [inch [err|]];
    intros; simplify_eq; eapply blames_intro; eassumption.
Qed.

Lemma parseHeaders_blames (jsonMap : gmap string json) v e :
  parseHeaders jsonMap = (v, Some e) -> blames jsonMap e.
Proof.
  unfold parseHeaders. destruct (jsonMap !! "headers") as [[]|] eqn:Hl;
    intros; simplify_eq; eapply blames_intro; try eassumption; reflexivity.
Qed.

Lemma parseEmulateMedia_blames (jsonMap : gmap string json) def v e :
  parseEmulateMedia jsonMap def = (v, Some e) -> blames jsonMap e.
Proof.
  unfold parseEmulateMedia.
  destruct (jsonMap !! "emulateMedia") as [[| | |val| |]|] eqn:Hl;
    try (intros; simplify_eq; eapply blames_intro; try eassumption; reflexivity).
  destruct (_ && _)%bool; intros; simplify_eq.
  eapply blames_intro; try eassumption; reflexivity.
Qed.

Lemma resolve_blames (jsonMap : gmap string json) e :
  snd (resolve ParseFloat jsonMap) = Some e -> blames jsonMap e.
Proof.
  unfold resolve.
  repeat match goal with
  | |- context [applyFormat ?m ?wh] => destruct (applyFormat m wh) as [? ?]
  | |- context [parseMarginsFix ?pf ?m] =>
      destruct (parseMarginsFix pf m) as [[[[? ?] ?] ?] ?]
  | |- context [match ?g with (_, _) => _ end] =>
      let H := fresh "Hget" in
      destruct g as [? [?|]] eqn:H;
      [ simpl; intros; simplify_eq;
        first [ eapply parseString_blames; [|eassumption]; reflexivity
              | eapply parseBool_blames; [|eassumption]; reflexivity
              | eapply parseFloat64_blames; [|eassumption]; reflexivity
              | eapply parseUnit_blames; [|eassumption]; reflexivity
              | eapply parseInt64_blames; [|eassumption]; reflexivity
              | eapply parseDuration_blames; [|eassumption]; reflexivity
              | eapply parseStringOnly_blames; [| |eassumption]; reflexivity
              | eapply parseHeaders_blames; eassumption
              | eapply parseEmulateMedia_blames; eassumption ]
      | clear H ]
  end.
  discriminate.
Qed.

End Blame.

(** X2: when the resolution of a request object fails, the error is a
    ParseError whose key is one of the keys the resolver reads and is
    present in the request; absent keys never cause an error. *)
Theorem resolution_error_names_present_key
    (ParseFloat : string -> option float) (jsonMap : gmap string json) (e : error) :
  snd (NewConversionOptionsFromJSON ParseFloat (Some (JObj jsonMap))) = Some e ->
  exists key value,
    e = ParseError key value /\ key ∈ requestKeys /\ is_Some (jsonMap !! key).
Proof. simpl. apply resolve_blames. Qed.

(** The statement above on a request whose [scale] is a string. *)
Lemma resolution_error_names_present_key_witness :
  exists key value,
    ParseError "scale" (JStr "big") = ParseError key value /\
    key ∈ requestKeys /\
    is_Some (({[ "scale" := JStr "big" ]} : gmap string json) !! key).
Proof.
  apply (resolution_error_names_present_key Decimal.ParseFloat
           {[ "scale" := JStr "big" ]}).
  vm_compute. reflexivity.
Defined.

Lemma parseStringOnly_allowed (jsonMap : gmap string json) key def allowed v :
  parseStringOnly jsonMap key def allowed = (v, None) -> In v allowed.
Proof.
  unfold parseStringOnly.
  destruct (parseString jsonMap key def) as [param [err|]]; [discriminate|].
  destruct (existsb (fun a => String.eqb a param) allowed) eqn:He; [|discriminate].
  intros [= <-]. apply existsb_exists in He. destruct He as (a & Hin & Heq).
  apply String.eqb_eq in Heq. now subst a.
Qed.

Lemma parseEmulateMedia_allowed (jsonMap : gmap string json) v :
  parseEmulateMedia jsonMap MediaScreen = (v, None) ->
  v = MediaScreen \/ v = MediaPrint.
Proof.
  unfold parseEmulateMedia.
  destruct (jsonMap !! "emulateMedia") as [[| | |val| |]|]; try discriminate.
  - destruct (String.eqb_spec val MediaScreen) as [->|_]; cbn [negb andb].
    + intros [= <-]. now left.
    + destruct (String.eqb_spec val MediaPrint) as [->|_]; cbn [negb andb];
        [|discriminate].
      intros [= <-]. now right.
  - intros [= <-]. now left.
Qed.

(** X3: the options of a resolved request wait for "load" or "dom" and
    emulate "screen" or "print"; nothing else gets through. *)
Theorem resolved_enums
    (ParseFloat : string -> option float) (body : option json) (o : ConversionOptions) :
  fst (NewConversionOptionsFromJSON ParseFloat body) = Some o ->
  (WaitUntil o = "load" \/ WaitUntil o = "dom") /\
  (EmulateMedia o = "screen" \/ EmulateMedia o = "print").
Proof.
  unfold NewConversionOptionsFromJSON.
  destruct (decodeMap body) as [jsonMap|]; [|discriminate].
  intros Hres. apply resolve_fields in Hres.
  destruct Hres as (_ & _ & _ & _ & _ & _ & _ & _ & _ & Hwu & _ & _ & _ & _ & Hem & _).
  split.
  - apply parseStringOnly_allowed in Hwu. simpl in Hwu.
    destruct Hwu as [<-|[<-|[]]]; [now left | now right].
  - now apply parseEmulateMedia_allowed in Hem.
Qed.

(** The statement above on a request that asks for "dom" and "print". *)
Lemma resolved_enums_witness :
  exists o,
    fst (NewConversionOptionsFromJSON Decimal.ParseFloat
           (Some (JObj {[ "waitUntil" := JStr "dom"; "emulateMedia" := JStr "print" ]})))
    = Some o /\
    (WaitUntil o = "load" \/ WaitUntil o = "dom") /\
    (EmulateMedia o = "screen" \/ EmulateMedia o = "print").
Proof.
  eexists. split; [vm_compute; reflexivity|].
  apply (resolved_enums Decimal.ParseFloat
           (Some (JObj {[ "waitUntil" := JStr "dom"; "emulateMedia" := JStr "print" ]}))).
  vm_compute. reflexivity.
Defined.

(** X4: a duration field that is absent resolves to 0 whatever default the
    caller of [parseDuration] passes; a negative number of milliseconds
    resolves to 0; a number of milliseconds from 0 to 9223372036854 resolves
    to that many times 1000000 nanoseconds. *)
Theorem parseDuration_milliseconds
    (jsonMap : gmap string json) (key : string) (def : Z) :
  (jsonMap !! key = None -> parseDuration jsonMap key def = (0, None)) /\
  (forall f, jsonMap !! key = Some (JNum f) -> F64.to_int64 f < 0 ->
     parseDuration jsonMap key def = (0, None)) /\
  (forall f, jsonMap !! key = Some (JNum f) ->
     0 <= F64.to_int64 f <= 9223372036854 ->
     parseDuration jsonMap key def = (F64.to_int64 f * 1000000, None)).
Proof.
  unfold parseDuration, parseInt64. repeat split.
  - intros ->. reflexivity.
  - intros f -> Hneg. destruct (Z.ltb_spec (F64.to_int64 f) 0); [reflexivity | lia].
  - intros f -> Hrange. destruct (Z.ltb_spec (F64.to_int64 f) 0); [lia|].
    unfold F64.wrap64, Millisecond. f_equal.
    rewrite Z.mod_small; lia.
Qed.

(** The statement above on a missing key with a default of five seconds,
    on -250 and on 3000 milliseconds. *)
Lemma parseDuration_milliseconds_witness :
  parseDuration ∅ "delay" 5000000000 = (0, None) /\
  parseDuration {[ "delay" := JNum (-250)%float ]} "delay" 0 = (0, None) /\
  parseDuration {[ "delay" := JNum 3000%float ]} "delay" 0 = (3000000000, None).
Proof.
  split; [|split].
  - apply (proj1 (parseDuration_milliseconds ∅ "delay" 5000000000)). reflexivity.
  - apply (proj1 (proj2 (parseDuration_milliseconds
                           {[ "delay" := JNum (-250)%float ]} "delay" 0)) (-250)%float).
    + reflexivity.
    + vm_compute. reflexivity.
  - change 3000000000 with (F64.to_int64 3000%float * 1000000).
    apply (proj2 (proj2 (parseDuration_milliseconds
                           {[ "delay" := JNum 3000%float ]} "delay" 0)) 3000%float).
    + reflexivity.
    + vm_compute. split; discriminate.
Defined.

Lemma lowerByte_not_upper (c : ascii) :
  Str.isUpper (Str.lowerByte c) = false.
Proof.
  unfold Str.lowerByte. destruct (Str.isUpper c) eqn:Hu; [|exact Hu].
  unfold Str.isUpper in *.
  apply andb_true_iff in Hu. destruct Hu as [H1 H2].
  apply Nat.leb_le in H1. apply Nat.leb_le in H2.
  rewrite nat_ascii_embedding by lia.
  apply andb_false_iff. right. apply Nat.leb_gt. lia.
Qed.

Lemma lowerByte_idempotent (c : ascii) :
  Str.lowerByte (Str.lowerByte c) = Str.lowerByte c.
Proof.
  unfold Str.lowerByte at 1. now rewrite lowerByte_not_upper.
Qed.

Lemma ToLower_idempotent (s : string) : Str.ToLower (Str.ToLower s) = Str.ToLower s.
Proof.
  induction s as [|c s IH]; simpl; [reflexivity|].
  now rewrite lowerByte_idempotent, IH.
Qed.

Lemma ToLower_length (s : string) : String.length (Str.ToLower s) = String.length s.
Proof. induction s as [|c s IH]; simpl; [reflexivity | now rewrite IH]. Qed.

(** X5: a unit suffix is matched without regard to case: a string whose
    last two bytes spell px, in, cm or mm in any case resolves to the same
    result as the string with these two bytes in lower case. *)
Theorem stringToInch_suffix_case
    (ParseFloat : string -> option float) (text suffix : string) (ratio : float) :
  String.length suffix = 2%nat ->
  tableGet UnitToPixels (Str.ToLower suffix) = Some ratio ->
  stringToInch ParseFloat (text ++ suffix)%string
  = stringToInch ParseFloat (text ++ Str.ToLower suffix)%string.
Proof.
  intros Hlen Hunit.
  assert (Hlen' : String.length (Str.ToLower suffix) = 2%nat)
    by now rewrite ToLower_length.
  unfold stringToInch.
  rewrite !length_append, Hlen, Hlen'.
  rewrite !lastTwo_append, !dropLastTwo_append by assumption.
  now rewrite ToLower_idempotent, Hunit.
Qed.

(** The statement above on "2.5CM". *)
Lemma stringToInch_suffix_case_witness :
  stringToInch Decimal.ParseFloat "2.5CM" = stringToInch Decimal.ParseFloat "2.5cm".
Proof.
  apply (stringToInch_suffix_case Decimal.ParseFloat "2.5" "CM" 37.8%float);
    reflexivity.
Defined.

(** X6: a string of two bytes or more whose last two bytes are no unit,
    such as a bare numeral, is not read as pixels: the numeral, unit
    letters stripped, is multiplied by the zero value of the failed table
    lookup before it is converted. *)
Theorem parseUnit_without_unit
    (ParseFloat : string -> option float) (jsonMap : gmap string json)
    (key : string) (def : float) (raw : string) (value : float) :
  jsonMap !! key = Some (JStr raw) ->
  (2 <= String.length raw)%nat ->
  tableGet UnitToPixels (Str.ToLower (Str.lastTwo raw)) = None ->
  ParseFloat (Str.stripTrailingLetters raw) = Some value ->
  parseUnit ParseFloat jsonMap key def = (pixelToInch (value * 0), None).
Proof.
  intros Hkey Hlen Hunit Hval. unfold parseUnit. rewrite Hkey.
  now rewrite (stringToInch_unknown_suffix ParseFloat raw value Hlen Hunit Hval).
Qed.

(** The statement above on the string "96": it resolves to 0 inches. *)
Lemma parseUnit_without_unit_witness :
  parseUnit Decimal.ParseFloat {[ "paperWidth" := JStr "96" ]} "paperWidth" 8.5%float
  = (0%float, None).
Proof.
  change 0%float with (pixelToInch (96 * 0)) at 1.
  apply (parseUnit_without_unit Decimal.ParseFloat
           {[ "paperWidth" := JStr "96" ]} "paperWidth" 8.5%float "96" 96%float).
  - reflexivity.
  - simpl. lia.
  - reflexivity.
  - vm_compute. reflexivity.
Defined.

(** X7: a [format] that names a paper size, in any case, overrides the
    paper width and height of the request with the sizes of the table. *)
Theorem format_overrides_paper_size
    (ParseFloat : string -> option float) (jsonMap : gmap string json)
    (o : ConversionOptions) (format : string) (width height : float) :
  fst (NewConversionOptionsFromJSON ParseFloat (Some (JObj jsonMap))) = Some o ->
  jsonMap !! "format" = Some (JStr format) ->
  In (Str.ToLower format, (width, height)) PaperFormats ->
  PaperWidth (PDFParams o) = width /\ PaperHeight (PDFParams o) = height.
Proof.
  simpl. intros Hres Hfmt Hin. apply resolve_fields in Hres.
  destruct Hres as (_ & _ & _ & _ & (pw & ph & _ & _ & Happly) & _).
  unfold applyFormat, parseString in Happly. rewrite Hfmt in Happly.
  assert (Hget : tableGet PaperFormats (Str.ToLower format) = Some (width, height)).
  { unfold PaperFormats in Hin. simpl in Hin.
    repeat (destruct Hin as [Hin|Hin];
            [injection Hin as <- <- <-; reflexivity|]).
    contradiction. }
  rewrite Hget in Happly. now injection Happly as <- <-.
Qed.

(** The statement above on a request for "A4" that also gives a width. *)
Lemma format_overrides_paper_size_witness :
  exists o,
    fst (NewConversionOptionsFromJSON Decimal.ParseFloat
           (Some (JObj {[ "format" := JStr "A4"; "paperWidth" := JNum 960%float ]})))
    = Some o /\
    PaperWidth (PDFParams o) = 8.27%float /\ PaperHeight (PDFParams o) = 11.7%float.
Proof.
  eexists. split; [vm_compute; reflexivity|].
  apply (format_overrides_paper_size Decimal.ParseFloat
           {[ "format" := JStr "A4"; "paperWidth" := JNum 960%float ]} _ "A4").
  - vm_compute. reflexivity.
  - reflexivity.
  - simpl. tauto.
Defined.

(** X8: when the margins of a request are read without error, no margin
    of the resolved options equals 0. *)
Theorem resolved_margins_not_zero
    (ParseFloat : string -> option float) (jsonMap : gmap string json)
    (o : ConversionOptions) :
  fst (NewConversionOptionsFromJSON ParseFloat (Some (JObj jsonMap))) = Some o ->
  snd (parseMarginsFix ParseFloat jsonMap) = None ->
  PrimFloat.eqb (MarginTop (PDFParams o)) 0%float = false /\
  PrimFloat.eqb (MarginRight (PDFParams o)) 0%float = false /\
  PrimFloat.eqb (MarginBottom (PDFParams o)) 0%float = false /\
  PrimFloat.eqb (MarginLeft (PDFParams o)) 0%float = false.
Proof.
  simpl. intros Hres Hok. apply resolve_margins in Hres.
  destruct (parseMarginsFix ParseFloat jsonMap) as [m err] eqn:Hfix.
  simpl in Hok, Hres. subst err.
  destruct (parseMarginsFix_ok ParseFloat jsonMap m Hfix)
    as (t & r & b & l & _ & _ & Ht & Hr & Hb & Hl).
  subst m. simpl in *. auto.
Qed.

(** The statement above on a margin of 0 pixels. *)
Lemma resolved_margins_not_zero_witness :
  exists o,
    fst (NewConversionOptionsFromJSON Decimal.ParseFloat
           (Some (JObj {[ "margin" := JNum 0%float ]}))) = Some o /\
    MarginTop (PDFParams o) = 0.00000001%float /\
    PrimFloat.eqb (MarginTop (PDFParams o)) 0%float = false.
Proof.
  eexists. split; [vm_compute; reflexivity|]. split; [reflexivity|].
  apply (resolved_margins_not_zero Decimal.ParseFloat {[ "margin" := JNum 0%float ]}).
  - vm_compute. reflexivity.
  - vm_compute. reflexivity.
Defined.

Lemma Split_not_nil (s : string) : Str.Split s <> [].
Proof.
  induction s as [|c s IH]; simpl; [discriminate|].
  destruct (Str.isSpace c); [discriminate|].
  destruct (Str.Split s); [contradiction | discriminate].
Qed.

Lemma stringToInch_error_kind (ParseFloat : string -> option float) raw v e :
  stringToInch ParseFloat raw = (v, Some e) ->
  e = ErrInvalidUnit \/ exists text, e = NumError text.
Proof.
  unfold stringToInch. destruct (_ <? _)%nat; [intros [= _ <-]; now left|].
  destruct (tableGet UnitToPixels _);
    match goal with |- context [ParseFloat ?t] => destruct (ParseFloat t) end;
    intros; simplify_eq; right; eauto.
Qed.

Lemma parseMarginsFrom_fails
    (ParseFloat : string -> option float) (raw : string) (m : margins) (e : error) :
  parseMarginsFrom ParseFloat raw = (m, Some e) ->
  m = (0, 0, 0, 0)%float /\
  (e = ErrInvalidUnit \/ exists text, e = NumError text).
Proof.
  unfold parseMarginsFrom.
  destruct (Str.Split (Str.Trim raw)) as [|v0 vs] eqn:Hs;
    [now apply Split_not_nil in Hs|].
  repeat match goal with
  | |- context [match stringToInch ParseFloat ?t with _ => _ end] =>
      let H := fresh "Htok" in
      destruct (stringToInch ParseFloat t) as [? [?|]] eqn:H;
      [ intros [= <- <-]; split; [reflexivity|];
        eapply stringToInch_error_kind; eassumption | ]
  | |- context [match ?l with [] => _ | _ :: _ => _ end] =>
      destruct l; [discriminate|]
  end.
  discriminate.
Qed.

(** X9: whenever [parseMarginsFrom] returns an error it returns four
    zeros with it, and the error is that of a token (too short for a
    unit, or a numeral that does not parse), never the ParseError of its
    first test: splitting yields at least one token. *)
Theorem parseMarginsFrom_error
    (ParseFloat : string -> option float) (raw : string) (m : margins) (e : error) :
  parseMarginsFrom ParseFloat raw = (m, Some e) ->
  m = (0, 0, 0, 0)%float /\
  (e = ErrInvalidUnit \/ exists text, e = NumError text).
Proof.
  apply parseMarginsFrom_fails.
Qed.

(** The statement above on a shorthand with two spaces in a row, which
    has an empty token. *)
Lemma parseMarginsFrom_error_witness :
  parseMarginsFrom Decimal.ParseFloat "10px  20px"
  = ((0, 0, 0, 0)%float, Some ErrInvalidUnit) /\
  (ErrInvalidUnit = ErrInvalidUnit \/ exists text, ErrInvalidUnit = NumError text).
Proof.
  split; [vm_compute; reflexivity|].
  apply (parseMarginsFrom_error Decimal.ParseFloat "10px  20px" (0, 0, 0, 0)%float).
  vm_compute. reflexivity.
Defined.

(** X10: a non-empty margin shorthand with a token that cannot be read
    does not fail the resolution; where the request resolves, its four
    margins are 0. *)
Theorem shorthand_error_gives_zero_margins
    (ParseFloat : string -> option float) (jsonMap : gmap string json)
    (o : ConversionOptions) (shorthand : string) (e : error) :
  jsonMap !! "margin" = Some (JStr shorthand) ->
  shorthand <> "" ->
  snd (parseMarginsFrom ParseFloat shorthand) = Some e ->
  fst (NewConversionOptionsFromJSON ParseFloat (Some (JObj jsonMap))) = Some o ->
  MarginTop (PDFParams o) = 0%float /\ MarginRight (PDFParams o) = 0%float /\
  MarginBottom (PDFParams o) = 0%float /\ MarginLeft (PDFParams o) = 0%float.
Proof.
  simpl. intros Hm Hne Herr Hres. apply resolve_margins in Hres.
  destruct (parseMarginsFrom ParseFloat shorthand) as [m err] eqn:Hfrom.
  simpl in Herr. subst err.
  destruct (parseMarginsFrom_fails ParseFloat shorthand m e Hfrom) as [-> _].
  rewrite (parseMarginsFix_error ParseFloat jsonMap (0, 0, 0, 0)%float e) in Hres.
  - simpl in Hres. now injection Hres as -> -> -> ->.
  - now rewrite (parseMargins_shorthand ParseFloat jsonMap shorthand Hm Hne).
Qed.

(** The statement above on the shorthand "1cm wide". *)
Lemma shorthand_error_gives_zero_margins_witness :
  exists o,
    fst (NewConversionOptionsFromJSON Decimal.ParseFloat
           (Some (JObj {[ "margin" := JStr "1cm wide" ]}))) = Some o /\
    MarginTop (PDFParams o) = 0%float /\ MarginRight (PDFParams o) = 0%float /\
    MarginBottom (PDFParams o) = 0%float /\ MarginLeft (PDFParams o) = 0%float.
Proof.
  eexists. split; [vm_compute; reflexivity|].
  apply (shorthand_error_gives_zero_margins Decimal.ParseFloat
           {[ "margin" := JStr "1cm wide" ]} _ "1cm wide" (NumError "")).
  - reflexivity.
  - discriminate.
  - vm_compute. reflexivity.
  - vm_compute. reflexivity.
Defined.

Section OtherKeys.

Variable ParseFloat : string -> option float.
Variable jsonMap : gmap string json.
Variable changed : string.
Variable value : json.

(** Getters read nothing but their own key. *)
Lemma parseString_other key def :
  changed <> key ->
  parseString (<[changed := value]> jsonMap) key def = parseString jsonMap key def.
Proof. intros H. unfold parseString. now rewrite lookup_insert_ne. Qed.

Lemma parseBool_other key def :
  changed <> key ->
  parseBool (<[changed := value]> jsonMap) key def = parseBool jsonMap key def.
Proof. intros H. unfold parseBool. now rewrite lookup_insert_ne. Qed.

Lemma parseInt64_other key def :
  changed <> key ->
  parseInt64 (<[changed := value]> jsonMap) key def = parseInt64 jsonMap key def.
Proof. intros H. unfold parseInt64. now rewrite lookup_insert_ne. Qed.

Lemma parseFloat64_other key def :
  changed <> key ->
  parseFloat64 (<[changed := value]> jsonMap) key def = parseFloat64 jsonMap key def.
Proof. intros H. unfold parseFloat64. now rewrite lookup_insert_ne. Qed.

Lemma parseDuration_other key def :
  changed <> key ->
  parseDuration (<[changed := value]> jsonMap) key def = parseDuration jsonMap key def.
Proof. intros H. unfold parseDuration. now rewrite parseInt64_other. Qed.

Lemma parseStringOnly_other key def allowed :
  changed <> key ->
  parseStringOnly (<[changed := value]> jsonMap) key def allowed
  = parseStringOnly jsonMap key def allowed.
Proof. intros H. unfold parseStringOnly. now rewrite parseString_other. Qed.

Lemma parseUnit_other key def :
  changed <> key ->
  parseUnit ParseFloat (<[changed := value]> jsonMap) key def
  = parseUnit ParseFloat jsonMap key def.
Proof. intros H. unfold parseUnit. now rewrite lookup_insert_ne. Qed.

Lemma parseHeaders_other :
  changed <> "headers" ->
  parseHeaders (<[changed := value]> jsonMap) = parseHeaders jsonMap.
Proof. intros H. unfold parseHeaders. now rewrite lookup_insert_ne. Qed.

Lemma parseEmulateMedia_other def :
  changed <> "emulateMedia" ->
  parseEmulateMedia (<[changed := value]> jsonMap) def = parseEmulateMedia jsonMap def.
Proof. intros H. unfold parseEmulateMedia. now rewrite lookup_insert_ne. Qed.

Lemma applyFormat_other wh :
  changed <> "format" ->
  applyFormat (<[changed := value]> jsonMap) wh = applyFormat jsonMap wh.
Proof. intros H. unfold applyFormat. now rewrite parseString_other. Qed.

(** Setting a margin key changes neither whether resolution fails nor
    with which error. *)
Lemma resolve_margin_key :
  changed ∈ marginKeys ->
  snd (resolve ParseFloat (<[changed := value]> jsonMap))
  = snd (resolve ParseFloat jsonMap) /\
  (is_Some (fst (resolve ParseFloat (<[changed := value]> jsonMap))) <->
   is_Some (fst (resolve ParseFloat jsonMap))).
Proof.
  intros Hkey.
  assert (Hne : forall key, bool_decide (key ∈ marginKeys) = false -> changed <> key).
  { intros key Hk ->. apply bool_decide_eq_false in Hk. contradiction. }
  unfold resolve.
  rewrite !parseString_other, !parseBool_other, !parseFloat64_other,
    !parseUnit_other, !parseInt64_other, !parseDuration_other,
    !parseStringOnly_other, parseHeaders_other, parseEmulateMedia_other
    by (apply Hne; vm_compute; reflexivity).
  repeat match goal with
  | |- context [applyFormat ?m ?wh] =>
      rewrite (applyFormat_other wh) by (apply Hne; vm_compute; reflexivity);
      destruct (applyFormat jsonMap wh) as [? ?]
  | |- context [parseMarginsFix ?pf ?m] =>
      destruct (parseMarginsFix pf m) as [[[[? ?] ?] ?] ?]
  | |- context [match ?g with (_, _) => _ end] =>
      destruct g as [? [?|]];
      [ simpl; split; [reflexivity|];
        split; intros [? ?]; discriminate | ]
  end.
  simpl. split; [reflexivity|]. split; intros _; eexists; reflexivity.
Qed.

End OtherKeys.

(** X11: no value of [margin], [marginTop], [marginRight], [marginBottom]
    or [marginLeft] makes resolution fail: setting one of them to anything
    leaves the error of resolution, or its absence, as it was. *)
Theorem margin_values_never_fail_resolution
    (ParseFloat : string -> option float) (jsonMap : gmap string json)
    (key : string) (value : json) :
  key ∈ marginKeys ->
  snd (NewConversionOptionsFromJSON ParseFloat (Some (JObj (<[key := value]> jsonMap))))
  = snd (NewConversionOptionsFromJSON ParseFloat (Some (JObj jsonMap))) /\
  (is_Some (fst (NewConversionOptionsFromJSON ParseFloat
                   (Some (JObj (<[key := value]> jsonMap))))) <->
   is_Some (fst (NewConversionOptionsFromJSON ParseFloat (Some (JObj jsonMap))))).
Proof. simpl. apply resolve_margin_key. Qed.

(** The statement above on a [marginTop] that is a boolean. *)
Lemma margin_values_never_fail_resolution_witness :
  snd (NewConversionOptionsFromJSON Decimal.ParseFloat
         (Some (JObj (<[ "marginTop" := JBool true ]> {[ "url" := JStr "http://a" ]}))))
  = None.
Proof.
  rewrite (proj1 (margin_values_never_fail_resolution Decimal.ParseFloat
                    {[ "url" := JStr "http://a" ]} "marginTop" (JBool true)
                    ltac:(vm_compute; repeat constructor))).
  vm_compute. reflexivity.
Defined.

(** X12: a request may carry both sources: when [html] and [url] are both
    strings, resolution rejects neither and keeps both as they are. *)
Theorem both_sources_are_kept
    (ParseFloat : string -> option float) (jsonMap : gmap string json)
    (o : ConversionOptions) (html url : string) :
  jsonMap !! "html" = Some (JStr html) ->
  jsonMap !! "url" = Some (JStr url) ->
  fst (NewConversionOptionsFromJSON ParseFloat (Some (JObj jsonMap))) = Some o ->
  HTML o = html /\ URL o = url.
Proof.
  simpl. intros Hh Hu Hres. apply resolve_sources in Hres.
  destruct Hres as [Hh' Hu']. unfold parseString in Hh', Hu'.
  rewrite Hh in Hh'. rewrite Hu in Hu'. split; congruence.
Qed.

(** The statement above on a request with a text and an address. *)
Lemma both_sources_are_kept_witness :
  exists o,
    fst (NewConversionOptionsFromJSON Decimal.ParseFloat
           (Some (JObj {[ "html" := JStr "<p>text</p>"; "url" := JStr "http://a" ]})))
    = Some o /\
    HTML o = "<p>text</p>" /\ URL o = "http://a".
Proof.
  eexists. split; [vm_compute; reflexivity|].
  apply (both_sources_are_kept Decimal.ParseFloat
           {[ "html" := JStr "<p>text</p>"; "url" := JStr "http://a" ]}).
  - reflexivity.
  - reflexivity.
  - vm_compute. reflexivity.
Defined.

(** X13: a margin shorthand of more than four tokens is read as its first
    four; what follows is not looked at, readable or not. *)
Theorem shorthand_extra_tokens_ignored
    (ParseFloat : string -> option float) (raw t0 t1 t2 t3 : string)
    (more : list string) (v0 v1 v2 v3 : float) :
  Str.Split (Str.Trim raw) = t0 :: t1 :: t2 :: t3 :: more ->
  stringToInch ParseFloat t0 = (v0, None) ->
  stringToInch ParseFloat t1 = (v1, None) ->
  stringToInch ParseFloat t2 = (v2, None) ->
  stringToInch ParseFloat t3 = (v3, None) ->
  parseMarginsFrom ParseFloat raw = ((v0, v1, v2, v3), None).
Proof.
  intros Hs H0 H1 H2 H3. unfold parseMarginsFrom. now rewrite Hs, H0, H1, H2, H3.
Qed.

(** The statement above on a shorthand of six tokens, the last two of
    which are no lengths. *)
Lemma shorthand_extra_tokens_ignored_witness :
  parseMarginsFrom Decimal.ParseFloat "96px 48px 1in 2in and more"
  = ((1, 0.5, 1, 2)%float, None).
Proof.
  apply (shorthand_extra_tokens_ignored Decimal.ParseFloat
           "96px 48px 1in 2in and more" "96px" "48px" "1in" "2in" ["and"; "more"]);
    vm_compute; reflexivity.
Defined.

(** * Properties of the string-list getters *)

Lemma collectStrings_strings key (vals : list string) :
  collectStrings key (map JStr vals) = (vals, None).
Proof. induction vals as [|v vals IH]; simpl; [reflexivity | now rewrite IH]. Qed.

Lemma collectStrings_ok key rvals vals :
  collectStrings key rvals = (vals, None) -> rvals = map JStr vals.
Proof.
  revert vals. induction rvals as [|r rvals IH]; intros vals; simpl.
  - now intros [= <-].
  - destruct r; try discriminate.
    destruct (collectStrings key rvals) as [vs [err|]]; [discriminate|].
    intros [= <-]. simpl. now rewrite (IH vs eq_refl).
Qed.

Lemma collectStrings_error key rvals vals e :
  collectStrings key rvals = (vals, Some e) ->
  vals = [] /\ e = ParseError key (JStr "").
Proof.
  revert vals. induction rvals as [|r rvals IH]; intros vals; simpl; [discriminate|].
  destruct r; try (now intros [= <- <-]).
  destruct (collectStrings key rvals) as [vs [err|]] eqn:Hc; [|discriminate].
  intros [= <- <-]. split; [reflexivity|]. exact (proj2 (IH vs eq_refl)).
Qed.

(** X14: [parseStringOrStrings] returns the default for an absent key, the
    strings of an array of strings in their order, and a single string as
    a list of one; an array with an element that is no string, like any
    other value, fails with a ParseError that carries the key and the
    whole value.  Where [parseStrings] succeeds the two agree. *)
Theorem parseStringOrStrings_cases
    (jsonMap : gmap string json) (key : string) (def : list string) :
  (jsonMap !! key = None -> parseStringOrStrings jsonMap key def = (def, None)) /\
  (forall vals, jsonMap !! key = Some (JArr (map JStr vals)) ->
     parseStringOrStrings jsonMap key def = (vals, None)) /\
  (forall val, jsonMap !! key = Some (JStr val) ->
     parseStringOrStrings jsonMap key def = ([val], None)) /\
  (forall raw,
     jsonMap !! key = Some raw ->
     (forall vals, raw <> JArr (map JStr vals)) ->
     (forall val, raw <> JStr val) ->
     parseStringOrStrings jsonMap key def = ([], Some (ParseError key raw))) /\
  (forall vals, parseStrings jsonMap key def = (vals, None) ->
     parseStringOrStrings jsonMap key def = (vals, None)).
Proof.
  unfold parseStringOrStrings, parseStrings. repeat split.
  - intros ->. reflexivity.
  - intros vals ->. now rewrite collectStrings_strings.
  - intros val ->. reflexivity.
  - intros raw -> Harr Hstr. destruct raw as [| | |s|rvals|]; try reflexivity.
    + exfalso. now apply (Hstr s).
    + destruct (collectStrings key rvals) as [vals [err|]] eqn:Hc; [reflexivity|].
      apply collectStrings_ok in Hc. exfalso. apply (Harr vals). now rewrite Hc.
  - intros vals Hp.
    destruct (jsonMap !! key) as [[| | | |rvals|]|]; try discriminate.
    + now rewrite Hp.
    + exact Hp.
Qed.

(** The statement above on an absent key, on two page ranges, on a single
    one, and on an array with a number in it. *)
Lemma parseStringOrStrings_cases_witness :
  parseStringOrStrings ∅ "pages" ["1-"] = (["1-"], None) /\
  parseStringOrStrings {[ "pages" := JArr [JStr "1-3"; JStr "7"] ]} "pages" []
  = (["1-3"; "7"], None) /\
  parseStringOrStrings {[ "pages" := JStr "2" ]} "pages" [] = (["2"], None) /\
  parseStringOrStrings {[ "pages" := JArr [JStr "1"; JNum 2%float] ]} "pages" []
  = ([], Some (ParseError "pages" (JArr [JStr "1"; JNum 2%float]))).
Proof.
  split; [|split; [|split]].
  - apply (proj1 (parseStringOrStrings_cases ∅ "pages" ["1-"])). reflexivity.
  - apply (proj1 (proj2 (parseStringOrStrings_cases
                           {[ "pages" := JArr [JStr "1-3"; JStr "7"] ]} "pages" []))
             ["1-3"; "7"]).
    reflexivity.
  - apply (proj1 (proj2 (proj2 (parseStringOrStrings_cases
                                  {[ "pages" := JStr "2" ]} "pages" [])))).
    reflexivity.
  - apply (proj1 (proj2 (proj2 (proj2 (parseStringOrStrings_cases
                    {[ "pages" := JArr [JStr "1"; JNum 2%float] ]} "pages" []))))).
    + reflexivity.
    + intros [|v1 [|v2 vals]]; simpl; discriminate.
    + discriminate.
Defined.

(** * Further properties of merge requests *)

Section MergeRequests.

Variable ParseFloat : string -> option float.

(** Resolution returns options and a nil error, or nil and an error. *)
Lemma resolve_shape (jsonMap : gmap string json) :
  (exists o, resolve ParseFloat jsonMap = (Some o, None)) \/
  (exists e, resolve ParseFloat jsonMap = (None, Some e)).
Proof.
  unfold resolve.
  repeat match goal with
  | |- context [applyFormat ?m ?wh] => destruct (applyFormat m wh) as [? ?]
  | |- context [parseMarginsFix ?pf ?m] =>
      destruct (parseMarginsFix pf m) as [[[[? ?] ?] ?] ?]
  | |- context [match ?g with (_, _) => _ end] =>
      destruct g as [? [?|]]; [right; eexists; reflexivity|]
  end.
  left. eexists. reflexivity.
Qed.

Lemma NewConversionOptionsFromJSON_shape body :
  (exists o, NewConversionOptionsFromJSON ParseFloat body = (Some o, None)) \/
  (exists e, NewConversionOptionsFromJSON ParseFloat body = (None, Some e)).
Proof.
  unfold NewConversionOptionsFromJSON. destruct (decodeMap body).
  - apply resolve_shape.
  - right. eexists. reflexivity.
Qed.

Lemma resolveDocuments_ok docdata docoptions :
  fst (resolveDocuments ParseFloat docdata) = Some docoptions ->
  Forall2 (fun data o =>
             exists o', NewConversionOptionsFromJSON ParseFloat (Some data)
                        = (Some o', None) /\
                        o = clearPasswords o')
          docdata docoptions.
Proof.
  revert docoptions. induction docdata as [|data rest IH]; intros docoptions; simpl.
  - intros [= <-]. constructor.
  - destruct (NewConversionOptionsFromJSON ParseFloat (Some data)) as [[o|] [e|]] eqn:Hd;
      try discriminate.
    destruct (resolveDocuments ParseFloat rest) as [[ds|] [e|]]; try discriminate.
    simpl. intros [= <-]. constructor; [eauto | now apply IH].
Qed.

Lemma resolveDocuments_first_error good bad rest e :
  Forall (fun data => snd (NewConversionOptionsFromJSON ParseFloat (Some data)) = None)
         good ->
  snd (NewConversionOptionsFromJSON ParseFloat (Some bad)) = Some e ->
  resolveDocuments ParseFloat (good ++ bad :: rest) = (None, Some e).
Proof.
  intros Hgood Hbad. induction Hgood as [|data good Hd _ IH].
  - cbn [app resolveDocuments].
    destruct (NewConversionOptionsFromJSON_shape (Some bad)) as [[o Ho]|[e' He]].
    + rewrite Ho in Hbad. discriminate.
    + rewrite He in *. simpl in Hbad. congruence.
  - cbn [app resolveDocuments].
    destruct (NewConversionOptionsFromJSON_shape (Some data)) as [[o Ho]|[e' He]].
    + rewrite Ho. now rewrite IH.
    + rewrite He in Hd. discriminate.
Qed.

End MergeRequests.

(** X15: a resolved merge request has one document per element of the
    [documents] array, in the order of the array, each being what the
    element resolves to as a request of its own, passwords cleared. *)
Theorem merge_documents_in_array_order
    (ParseFloat : string -> option float) (jsonMap : gmap string json)
    (options : MergeOptions) :
  fst (NewMergeOptionsFromJSON ParseFloat (Some (JObj jsonMap))) = Some options ->
  exists docdata,
    jsonMap !! "documents" = Some (JArr docdata) /\
    length (Documents options) = length docdata /\
    forall i data,
      docdata !! i = Some data ->
      exists o,
        NewConversionOptionsFromJSON ParseFloat (Some data) = (Some o, None) /\
        Documents options !! i = Some (clearPasswords o).
Proof.
  unfold NewMergeOptionsFromJSON. cbn [decodeMap].
  destruct (jsonMap !! "documents") as [[| | | |docdata|]|]; try discriminate.
  destruct (resolveDocuments ParseFloat docdata) as [[docoptions|] [e|]] eqn:Hdocs;
    try discriminate.
  destruct (parseString jsonMap "ownerPassword" "") as [? [?|]]; [discriminate|].
  destruct (parseString jsonMap "userPassword" "") as [? [?|]]; [discriminate|].
  simpl. intros [= <-]. simpl.
  assert (H2 := resolveDocuments_ok ParseFloat docdata docoptions).
  rewrite Hdocs in H2. specialize (H2 eq_refl).
  exists docdata. split; [reflexivity|]. split.
  - symmetry. exact (Forall2_length _ _ _ H2).
  - intros i data Hi.
    destruct (Forall2_lookup_l _ _ _ _ _ H2 Hi) as (o & Ho & o' & Hres & ->).
    eauto.
Qed.

(** The statement above on the request with two documents. *)
Lemma merge_documents_in_array_order_witness :
  exists options (docdata : list json),
    fst (NewMergeOptionsFromJSON Decimal.ParseFloat (Some lockedMerge)) = Some options /\
    length (Documents options) = length docdata /\ length docdata = 2%nat /\
    URL <$> Documents options = [""; "http://b"].
Proof.
  assert (Hres : exists options,
             fst (NewMergeOptionsFromJSON Decimal.ParseFloat (Some lockedMerge))
             = Some options /\
             URL <$> Documents options = [""; "http://b"]).
  { eexists. split; vm_compute; reflexivity. }
  destruct Hres as (options & Hres & Hurls).
  destruct (merge_documents_in_array_order Decimal.ParseFloat _ options Hres)
    as (docdata & Hdocs & Hlen & _).
  exists options, docdata. repeat split; try assumption.
  vm_compute in Hdocs. injection Hdocs as <-. reflexivity.
Defined.

(** X16: the resolution of a merge request stops at the first document
    that does not resolve and returns that document's error; the documents
    after it, and the passwords of the request, are not looked at. *)
Theorem merge_fails_on_first_bad_document
    (ParseFloat : string -> option float) (jsonMap : gmap string json)
    (good : list json) (bad : json) (rest : list json) (e : error) :
  jsonMap !! "documents" = Some (JArr (good ++ bad :: rest)) ->
  Forall (fun data => snd (NewConversionOptionsFromJSON ParseFloat (Some data)) = None)
         good ->
  snd (NewConversionOptionsFromJSON ParseFloat (Some bad)) = Some e ->
  NewMergeOptionsFromJSON ParseFloat (Some (JObj jsonMap)) = (None, Some e).
Proof.
  intros Hdocs Hgood Hbad. unfold NewMergeOptionsFromJSON. cbn [decodeMap].
  rewrite Hdocs.
  now rewrite (resolveDocuments_first_error ParseFloat good bad rest e Hgood Hbad).
Qed.

(** The statement above on three documents of which the second has a
    number as [html] and the third is no object; the owner password of
    the request is no string either. *)
Lemma merge_fails_on_first_bad_document_witness :
  NewMergeOptionsFromJSON Decimal.ParseFloat
    (Some (JObj {[ "documents" :=
                     JArr [ JObj {[ "url" := JStr "http://a" ]};
                            JObj {[ "html" := JNum 1%float ]};
                            JBool true ];
                   "ownerPassword" := JNum 7%float ]}))
  = (None, Some (ParseError "html" (JNum 1%float))).
Proof.
  apply (merge_fails_on_first_bad_document Decimal.ParseFloat _
           [JObj {[ "url" := JStr "http://a" ]}]
           (JObj {[ "html" := JNum 1%float ]}) [JBool true]).
  - reflexivity.
  - repeat constructor.
  - vm_compute. reflexivity.
Defined.

(** X17: JSON cannot ask for a watermark: the options of a resolved
    conversion request, of a resolved merge request and of each of its
    documents carry none. *)
Theorem json_never_sets_a_watermark
    (ParseFloat : string -> option float) (body : option json) :
  (forall o, fst (NewConversionOptionsFromJSON ParseFloat body) = Some o ->
     Watermark o = None) /\
  (forall options, fst (NewMergeOptionsFromJSON ParseFloat body) = Some options ->
     MergeWatermark options = None /\
     forall o, In o (Documents options) -> Watermark o = None).
Proof.
  assert (Hone : forall b o,
             fst (NewConversionOptionsFromJSON ParseFloat b) = Some o ->
             Watermark o = None).
  { intros b o. unfold NewConversionOptionsFromJSON.
    destruct (decodeMap b) as [jsonMap|]; [|discriminate].
    intros Hres. apply resolve_fields in Hres. tauto. }
  split; [apply Hone|].
  intros options. unfold NewMergeOptionsFromJSON.
  destruct (decodeMap body) as [jsonMap|]; [|discriminate].
  destruct (jsonMap !! "documents") as [[| | | |docdata|]|]; try discriminate.
  destruct (resolveDocuments ParseFloat docdata) as [[docoptions|] [e|]] eqn:Hdocs;
    try discriminate.
  destruct (parseString jsonMap "ownerPassword" "") as [? [?|]]; [discriminate|].
  destruct (parseString jsonMap "userPassword" "") as [? [?|]]; [discriminate|].
  simpl. intros [= <-]. simpl. split; [reflexivity|].
  assert (H2 := resolveDocuments_ok ParseFloat docdata docoptions).
  rewrite Hdocs in H2. specialize (H2 eq_refl).
  intros o Ho. apply list_elem_of_In in Ho.
  apply list_elem_of_lookup in Ho. destruct Ho as [i Hi].
  destruct (Forall2_lookup_r _ _ _ _ _ H2 Hi) as (data & _ & o' & Hres & ->).
  simpl. apply (Hone (Some data)). now rewrite Hres.
Qed.

(** The statement above on a request that has a [watermark] key. *)
Lemma json_never_sets_a_watermark_witness :
  exists o,
    fst (NewConversionOptionsFromJSON Decimal.ParseFloat
           (Some (JObj {[ "watermark" := JStr "Draft"; "url" := JStr "http://a" ]})))
    = Some o /\
    Watermark o = None.
Proof.
  eexists. split; [vm_compute; reflexivity|].
  apply (proj1 (json_never_sets_a_watermark Decimal.ParseFloat
                  (Some (JObj {[ "watermark" := JStr "Draft";
                                 "url" := JStr "http://a" ]})))).
  vm_compute. reflexivity.
Defined.

(** * Further properties of the render session *)

Section SessionErrors.

Variable World : Type.
Variable ask : forall R, Call R -> World -> (ext_error + R) * World.
Variable wait : forall R, Wait R -> World -> R * World.

Lemma runActions_no_deadline ctx options target w :
  fst (runActions World ask wait ctx options target w)
  <> inl (External DeadlineExceeded).
Proof.
  unfold runActions.
  match goal with |- context [match ?m w with _ => _ end] =>
    destruct (m w) as [[e|pdf] w']
  end; [|discriminate].
  destruct e as [| | | | | | | |[]]; discriminate.
Qed.

Lemma postprocess_plain pdf options w :
  Watermark options = None ->
  OwnerPassword options = "" ->
  UserPassword options = "" ->
  postprocess World ask pdf options w = (inr pdf, w).
Proof.
  intros Hw Ho Hu. unfold postprocess, secure, bind, ret. now rewrite Hw, Ho, Hu.
Qed.

End SessionErrors.

(** X18: [Convert] fails with nothing but ErrTimeout, ErrWaitUntilTimeout
    or an error of a collaborator; ErrNoSource, ErrNoBody and the errors of
    resolution are never returned by it. *)
Theorem Convert_errors
    (World : Type)
    (ask : forall R, Call R -> World -> (ext_error + R) * World)
    (wait : forall R, Wait R -> World -> R * World)
    (ctx : Context) (options : ConversionOptions) (w : World) (e : error) :
  fst (Convert World ask wait ctx options w) = inl e ->
  e = ErrTimeout \/ e = ErrWaitUntilTimeout \/ exists x, e = External x.
Proof.
  intros He.
  destruct (Convert World ask wait ctx options w) as [r w'] eqn:Hc.
  simpl in He. subst r.
  pose proof (raises_Convert World ask wait ctx options _ _ _ Hc) as Hs.
  destruct e; try contradiction; eauto.
Qed.

(** The statement above on a page that cannot be reached. *)
Lemma Convert_errors_witness :
  External (Failure 1) = ErrTimeout \/ External (Failure 1) = ErrWaitUntilTimeout \/
  exists x, External (Failure 1) = External x.
Proof.
  apply (Convert_errors _ Replay.ask Replay.wait Caller
           (withURL Replay.unreachable NewConversionOptions) Replay.blank).
  vm_compute. reflexivity.
Defined.

(** X19: the expiry of a deadline during the browser run never comes out
    as the context's own error: [chromedp.Run] failing with
    DeadlineExceeded is returned as ErrTimeout.  A URL conversion without
    watermark and passwords therefore never fails with
    DeadlineExceeded. *)
Theorem deadline_is_reported_as_timeout
    (World : Type)
    (ask : forall R, Call R -> World -> (ext_error + R) * World)
    (wait : forall R, Wait R -> World -> R * World)
    (ctx : Context) (options : ConversionOptions) (w : World) :
  (forall target,
     fst (runActions World ask wait ctx options target w)
     <> inl (External DeadlineExceeded)) /\
  (Watermark options = None ->
   OwnerPassword options = "" ->
   UserPassword options = "" ->
   fst (ConvertURL World ask wait ctx options w) <> inl (External DeadlineExceeded)).
Proof.
  split.
  - intros target. apply runActions_no_deadline.
  - intros Hw Ho Hu. unfold ConvertURL, bind.
    match goal with |- context [runActions ?W ?a ?b ?c ?o ?t w] =>
      pose proof (runActions_no_deadline W a b c o t w) as Hrun;
      destruct (runActions W a b c o t w) as [[e|pdf] w']
    end.
    + exact Hrun.
    + rewrite postprocess_plain by assumption. discriminate.
Qed.

(** The statement above on the default options with an address. *)
Lemma deadline_is_reported_as_timeout_witness :
  fst (ConvertURL _ Replay.ask Replay.wait Caller
         (withURL "http://a" NewConversionOptions) Replay.blank)
  <> inl (External DeadlineExceeded).
Proof.
  apply (proj2 (deadline_is_reported_as_timeout _ Replay.ask Replay.wait Caller
                  (withURL "http://a" NewConversionOptions) Replay.blank));
    reflexivity.
Defined.

(** X20: without a watermark and with both passwords empty,
    post-processing returns the bytes it was given and calls nothing;
    without a watermark and with a password set it is the one call that
    encrypts the bytes with a key of 256 bits. *)
Theorem postprocess_without_security
    (World : Type)
    (ask : forall R, Call R -> World -> (ext_error + R) * World)
    (pdf : bytes) (options : ConversionOptions) (w : World) :
  Watermark options = None ->
  (OwnerPassword options = "" -> UserPassword options = "" ->
   postprocess World ask pdf options w = (inr pdf, w)) /\
  (OwnerPassword options <> "" \/ UserPassword options <> "" ->
   postprocess World ask pdf options w
   = call World ask
       (OptimizeEncrypt pdf (UserPassword options) (OwnerPassword options) 256) w).
Proof.
  intros Hw. split.
  - intros Ho Hu. now apply postprocess_plain.
  - intros Hpw. unfold postprocess, secure, bind, ret. rewrite Hw.
    destruct (String.eqb_spec (OwnerPassword options) "") as [Ho|_];
      destruct (String.eqb_spec (UserPassword options) "") as [Hu|_];
      try reflexivity.
    destruct Hpw; contradiction.
Qed.

(** The statement above on the default options and some bytes. *)
Lemma postprocess_without_security_witness :
  postprocess _ Replay.ask (list_ascii_of_string "%PDF") NewConversionOptions Replay.blank
  = (inr (list_ascii_of_string "%PDF"), Replay.blank).
Proof.
  apply (proj1 (postprocess_without_security _ Replay.ask
                  (list_ascii_of_string "%PDF") NewConversionOptions Replay.blank
                  eq_refl));
    reflexivity.
Defined.

(** X21: when the browser run of an HTML conversion fails, [ConvertHTML]
    returns that error at once: the world it leaves is the one the run
    left, so the temporary HTML file is not removed.  When the run
    succeeds, the removal of the file is the next call. *)
Theorem ConvertHTML_keeps_file_on_error
    (World : Type)
    (ask : forall R, Call R -> World -> (ext_error + R) * World)
    (wait : forall R, Wait R -> World -> R * World)
    (ctx : Context) (options : ConversionOptions)
    (w w0 w1 w2 w3 : World) (id : string) :
  wait string NewUUID w = (id, w0) ->
  ask unit (CreateFile (htmlFileName id)) w0 = (inr tt, w1) ->
  wait unit (WriteFile (htmlFileName id) (HTML options)) w1 = (tt, w2) ->
  (forall e,
     runActions World ask wait (NewContext (conversionContext ctx options)) options
       ("file://" ++ htmlFileName id)%string w2 = (inl e, w3) ->
     ConvertHTML World ask wait ctx options w = (inl e, w3)) /\
  (forall pdf,
     runActions World ask wait (NewContext (conversionContext ctx options)) options
       ("file://" ++ htmlFileName id)%string w2 = (inr pdf, w3) ->
     ConvertHTML World ask wait ctx options w
     = bind World (call World ask (RemoveFile (htmlFileName id)))
         (fun _ => postprocess World ask pdf options) w3).
Proof.
  intros Hid Hcreate Hwrite. split.
  - intros e Hrun. unfold ConvertHTML, bind, await, call at 1.
    rewrite Hid, Hcreate, Hwrite, Hrun. reflexivity.
  - intros pdf Hrun. unfold ConvertHTML, bind at 1 2 3 4, await, call at 1.
    rewrite Hid, Hcreate, Hwrite, Hrun. reflexivity.
Qed.

(** The statement above with a browser that cannot be started: the only
    call that went through is the creation of the file; no removal
    follows. *)
Lemma ConvertHTML_keeps_file_on_error_witness :
  exists w3,
    ConvertHTML _ Offline.ask Replay.wait Caller NewConversionOptions Replay.blank
    = (inl (External (Failure 2)), w3) /\
    Replay.log w3
    = [ @existT Type Call unit (CreateFile (htmlFileName "6ba7b810")) ].
Proof.
  eexists. split.
  - apply (proj1 (ConvertHTML_keeps_file_on_error _ Offline.ask Replay.wait Caller
                    NewConversionOptions Replay.blank _ _ _ _ "6ba7b810"
                    eq_refl eq_refl eq_refl)).
    reflexivity.
  - reflexivity.
Defined.

(** * Properties of the HTTP handler *)

(** X22: the handler of POST /conversions always answers, with status 201
    and the PDF or with status 400 and an error.  A body that does not
    resolve is answered 400 with the error of resolution and without any
    call to the browser; a body that resolves is answered with the outcome
    of [Convert] on the resolved options: 201 exactly when it succeeds. *)
Theorem handleConversion_answers
    (ParseFloat : string -> option float) (World : Type)
    (ask : forall R, Call R -> World -> (ext_error + R) * World)
    (wait : forall R, Wait R -> World -> R * World)
    (body : option json) (w : World) :
  exists r,
    fst (handleConversion ParseFloat World ask wait body w) = Some r /\
    ((status r = 201 /\ exists pdf, payload r = inr pdf) \/
     (status r = 400 /\ exists e, payload r = inl e)) /\
    (forall e,
       snd (NewConversionOptionsFromJSON ParseFloat body) = Some e ->
       r = {| status := 400; payload := inl e |} /\
       snd (handleConversion ParseFloat World ask wait body w) = w) /\
    (forall o,
       fst (NewConversionOptionsFromJSON ParseFloat body) = Some o ->
       payload r = fst (Convert World ask wait Caller o w) /\
       snd (handleConversion ParseFloat World ask wait body w)
       = snd (Convert World ask wait Caller o w)).
Proof.
  unfold handleConversion.
  destruct (NewConversionOptionsFromJSON_shape ParseFloat body) as [[o Ho]|[e He]].
  - rewrite Ho. cbn [fst snd].
    destruct (Convert World ask wait Caller o w) as [[e|pdf] w'] eqn:Hc;
      eexists; (split; [reflexivity|]); cbn [status payload fst snd].
    + split; [right; eauto|]. split; [discriminate|].
      intros o' [= <-]. rewrite Hc. now split.
    + split; [left; eauto|]. split; [discriminate|].
      intros o' [= <-]. rewrite Hc. now split.
  - rewrite He. cbn [fst snd].
    eexists; (split; [reflexivity|]); cbn [status payload].
    split; [right; eauto|]. split; [|discriminate].
    intros e' [= <-]. now split.
Qed.

(** The statement above on a request whose [landscape] is a string: it is
    answered without a call to the browser; and on a request for a page:
    the answer carries what [Convert] returns. *)
Lemma handleConversion_answers_witness :
  snd (handleConversion Decimal.ParseFloat _ Replay.ask Replay.wait
         (Some (JObj {[ "landscape" := JStr "yes" ]})) Replay.blank)
  = Replay.blank /\
  exists r,
    fst (handleConversion Decimal.ParseFloat _ Replay.ask Replay.wait
           (Some (JObj {[ "url" := JStr "http://a" ]})) Replay.blank) = Some r /\
    payload r = inr (list_ascii_of_string "http://a").
Proof.
  split.
  - destruct (handleConversion_answers Decimal.ParseFloat _ Replay.ask Replay.wait
                (Some (JObj {[ "landscape" := JStr "yes" ]})) Replay.blank)
      as (r & _ & _ & Herr & _).
    refine (proj2 (Herr (ParseError "landscape" (JStr "yes")) _)).
    vm_compute. reflexivity.
  - destruct (handleConversion_answers Decimal.ParseFloat _ Replay.ask Replay.wait
                (Some (JObj {[ "url" := JStr "http://a" ]})) Replay.blank)
      as (r & Hr & _ & _ & Hok).
    exists r. split; [exact Hr|].
    refine (eq_trans (proj1 (Hok (withURL "http://a" NewConversionOptions) _)) _).
    + vm_compute. reflexivity.
    + vm_compute. reflexivity.
Defined.

(** * Further properties of the merge coordinator *)

Lemma ended_le ts : (ended ts <= length ts)%nat.
Proof. induction ts as [|[] ts IH]; simpl; lia. Qed.

Lemma ended_lt ts i p :
  ts !! i = Some p -> p <> Finished -> (ended ts < length ts)%nat.
Proof.
  revert i. induction ts as [|q ts IH]; intros [|i] Hi Hp; simpl in *;
    try discriminate.
  - injection Hi as ->. pose proof (ended_le ts). destruct p; try contradiction; lia.
  - specialize (IH i Hi Hp). destruct q; lia.
Qed.

Lemma ended_insert_Finished ts i p :
  ts !! i = Some p -> p <> Finished ->
  ended (<[i := Finished]> ts) = S (ended ts).
Proof.
  revert i. induction ts as [|q ts IH]; intros [|i] Hi Hp; simpl in *;
    try discriminate.
  - injection Hi as ->. destruct p; try contradiction; reflexivity.
  - rewrite (IH i Hi Hp). now destruct q.
Qed.

Lemma ended_insert_Reported ts i :
  ts !! i = Some Converting -> ended (<[i := Reported]> ts) = ended ts.
Proof.
  revert i. induction ts as [|q ts IH]; intros [|i] Hi; simpl in *; try discriminate.
  - now injection Hi as ->.
  - rewrite (IH i Hi). now destruct q.
Qed.

Lemma returned_le ts : (returned ts <= length ts)%nat.
Proof. induction ts as [|[] ts IH]; simpl; lia. Qed.

Lemma returned_lt ts i :
  ts !! i = Some Converting -> (returned ts < length ts)%nat.
Proof.
  revert i. induction ts as [|q ts IH]; intros [|i] Hi; simpl in *; try discriminate.
  - injection Hi as ->. pose proof (returned_le ts). lia.
  - specialize (IH i Hi). destruct q; lia.
Qed.

Lemma returned_insert_new ts i p :
  ts !! i = Some Converting -> p <> Converting ->
  returned (<[i := p]> ts) = S (returned ts).
Proof.
  revert i. induction ts as [|q ts IH]; intros [|i] Hi Hp; simpl in *;
    try discriminate.
  - injection Hi as ->. destruct p; try contradiction; reflexivity.
  - rewrite (IH i Hi Hp). now destruct q.
Qed.

Lemma returned_insert_same ts i :
  ts !! i = Some Reported -> returned (<[i := Finished]> ts) = returned ts.
Proof.
  revert i. induction ts as [|q ts IH]; intros [|i] Hi; simpl in *; try discriminate.
  - now injection Hi as ->.
  - rewrite (IH i Hi). now destruct q.
Qed.

Section CoordinatorMore.

Variable World : Type.
Variable ask : forall R, Call R -> World -> (ext_error + R) * World.
Variable wait : forall R, Wait R -> World -> R * World.
Variable ctx : Context.
Variable options : MergeOptions.
Variable session : nat -> World.

Abbreviation N := (capacity options).
Abbreviation converted' := (converted World ask wait ctx session).
Abbreviation forMerge' := (forMerge World ask wait ctx options session).
Abbreviation step' := (step World ask wait ctx options session).
Abbreviation run' := (run World ask wait ctx options session).
Abbreviation documentError' := (documentError World ask wait ctx options session).
Abbreviation blamed' := (blamed World ask wait ctx options session).
Abbreviation inCapacity' := (inCapacity options).

(** Each of the three invariants holds at the start and is kept by every
    event. *)
Lemma inCapacity_step ev st st' : inCapacity' st -> step' ev st = Some st' -> inCapacity' st'.
Proof.
  intros [Ht Hres Herr]. destruct ev as [i|sel]; simpl.
  - unfold forMerge.
    destruct (tasks st !! i) as [[| |]|] eqn:Hpc; try discriminate;
      destruct (documents options !! i) as [o|]; try discriminate.
    + destruct (converted' i o) as [[err|] r].
      * unfold sendErr. destruct (_ <? _)%nat; [|discriminate]. intros [= <-].
        split; simpl.
        -- now rewrite length_insert.
        -- now rewrite ended_insert_Reported.
        -- rewrite length_app, (returned_insert_new _ _ Reported Hpc) by discriminate.
           simpl. lia.
      * unfold sendRes. destruct (_ <? _)%nat; [|discriminate]. intros [= <-].
        split; simpl.
        -- now rewrite length_insert.
        -- rewrite length_app, (ended_insert_Finished _ _ _ Hpc) by discriminate.
           simpl. lia.
        -- rewrite (returned_insert_new _ _ Finished Hpc) by discriminate. lia.
    + unfold sendRes. destruct (_ <? _)%nat; [|discriminate]. intros [= <-].
      split; simpl.
      * now rewrite length_insert.
      * rewrite length_app, (ended_insert_Finished _ _ _ Hpc) by discriminate.
        simpl. lia.
      * now rewrite returned_insert_same.
  - unfold mergeDocs. destruct (at_ st); try discriminate.
    destruct (_ =? _)%nat; [intros [= <-]; now split|].
    destruct sel.
    + destruct (cerr st) as [|err rest] eqn:Hq; [discriminate|].
      intros [= <-]. split; simpl; try assumption. simpl in Herr. lia.
    + destruct (cres st) as [|res rest] eqn:Hq; [discriminate|].
      simpl in Hres.
      destruct (_ <? _)%nat; intros [= <-]; split; simpl; try assumption; lia.
    + intros [= <-]. now split.
Qed.

Lemma blamed_step ev st st' : blamed' st -> step' ev st = Some st' -> blamed' st'.
Proof.
  intros [Hq Hat]. destruct ev as [i|sel]; simpl.
  - unfold forMerge.
    destruct (tasks st !! i) as [[| |]|]; try discriminate;
      destruct (documents options !! i) as [o|] eqn:Ho; try discriminate.
    + destruct (converted' i o) as [[err|] r] eqn:Hc.
      * unfold sendErr. destruct (_ <? _)%nat; [|discriminate]. intros [= <-].
        split; simpl; [|assumption].
        intros e He. apply elem_of_app in He. destruct He as [He|He]; [now apply Hq|].
        apply list_elem_of_singleton in He. subst e.
        exists i, o. split; [assumption|]. now rewrite Hc.
      * unfold sendRes. destruct (_ <? _)%nat; [|discriminate]. intros [= <-].
        now split.
    + unfold sendRes. destruct (_ <? _)%nat; [|discriminate]. intros [= <-].
      now split.
  - unfold mergeDocs. destruct (at_ st); try discriminate.
    destruct (_ =? _)%nat.
    { intros [= <-]. split; simpl; [assumption|].
      unfold readers. now destruct (mapM id (bufs st)). }
    destruct sel.
    + destruct (cerr st) as [|err rest] eqn:Hc; [discriminate|].
      intros [= <-]. split; simpl.
      * intros e He. apply Hq. apply elem_of_cons. now right.
      * right. apply Hq. apply elem_of_cons. now left.
    + destruct (cres st) as [|res rest]; [discriminate|].
      destruct (_ <? _)%nat; intros [= <-]; now split.
    + intros [= <-]. split; simpl; [assumption | now left].
Qed.

Lemma counted_step ev st st' : counted st -> step' ev st = Some st' -> counted st'.
Proof.
  unfold counted. intros Hc. destruct ev as [i|sel]; simpl.
  - unfold forMerge.
    destruct (tasks st !! i) as [[| |]|]; try discriminate;
      destruct (documents options !! i) as [o|]; try discriminate.
    + destruct (converted' i o) as [[err|] r];
        [unfold sendErr | unfold sendRes];
        (destruct (_ <? _)%nat; [|discriminate]); now intros [= <-].
    + unfold sendRes. destruct (_ <? _)%nat; [|discriminate]. now intros [= <-].
  - unfold mergeDocs. destruct (at_ st); try discriminate.
    destruct (Nat.eqb_spec (c st) (length (bufs st))) as [Hfull|_].
    { intros [= <-]. simpl. unfold readers. now destruct (mapM id (bufs st)). }
    destruct sel.
    + destruct (cerr st); [discriminate|]. now intros [= <-].
    + destruct (cres st); [discriminate|].
      destruct (_ <? _)%nat; now intros [= <-].
    + now intros [= <-].
Qed.

Lemma invariants_run sched : forall st0 st,
  inCapacity' st0 /\ blamed' st0 /\ counted st0 ->
  run' sched st0 = Some st ->
  inCapacity' st /\ blamed' st /\ counted st.
Proof.
  induction sched as [|ev sched IH]; intros st0 st H0; simpl.
  - now intros [= <-].
  - destruct (step' ev st0) as [st1|] eqn:Hstep; [|discriminate].
    apply IH. destruct H0 as (Hb & Hl & Hc). split; [|split].
    + eapply inCapacity_step; eassumption.
    + eapply blamed_step; eassumption.
    + eapply counted_step; eassumption.
Qed.

Lemma reachable_invariants sched st :
  run' sched (Merge options) = Some st ->
  inCapacity' st /\ blamed' st /\ counted st.
Proof.
  apply invariants_run. split; [|split].
  - split; simpl.
    + apply length_replicate.
    + lia.
    + lia.
  - split; simpl; [|exact I]. intros e He. now apply elem_of_nil in He.
  - exact I.
Qed.

End CoordinatorMore.

(** X23: in no run does [mergeDocs] index [bufs] out of range or build a
    reader from a nil buffer, and its counter never exceeds the number of
    documents. *)
Theorem mergeDocs_never_panics
    (World : Type)
    (ask : forall R, Call R -> World -> (ext_error + R) * World)
    (wait : forall R, Wait R -> World -> R * World)
    (ctx : Context) (options : MergeOptions) (session : nat -> World)
    (sched : list event) (st : state) :
  run World ask wait ctx options session sched (Merge options) = Some st ->
  at_ st <> Panicked /\ (c st <= length (Documents options))%nat.
Proof.
  intros Hrun.
  pose proof (inv_run _ ask wait ctx options session _ _ _
                (inv_Merge _ ask wait ctx options session) Hrun) as Hinv.
  destruct Hinv as [_ Hb _ _ _ Hc Hat]. split.
  - intros E. now rewrite E in Hat.
  - rewrite Hc. pose proof (filled_le (bufs st)) as Hle.
    unfold capacity, documents in Hb. rewrite length_map in Hb. lia.
Qed.

(** The statement above on a run over three documents. *)
Lemma mergeDocs_never_panics_witness :
  exists st,
    run _ Replay.ask Replay.wait Caller threePages (fun _ => Replay.blank)
      [Advance 1; Iterate OnRes; Advance 0; Iterate OnRes] (Merge threePages)
    = Some st /\
    at_ st <> Panicked /\ (c st <= 3)%nat.
Proof.
  eexists. split; [vm_compute; reflexivity|].
  apply (mergeDocs_never_panics _ Replay.ask Replay.wait Caller threePages
           (fun _ => Replay.blank)
           [Advance 1; Iterate OnRes; Advance 0; Iterate OnRes]).
  vm_compute. reflexivity.
Defined.

(** X24: when [mergeDocs] leaves its loop through a return statement, the
    error is ErrTimeout or the error with which the conversion of one of
    the documents, passwords cleared, failed.  If no conversion fails, it
    is ErrTimeout. *)
Theorem merge_returns_document_error_or_timeout
    (World : Type)
    (ask : forall R, Call R -> World -> (ext_error + R) * World)
    (wait : forall R, Wait R -> World -> R * World)
    (ctx : Context) (options : MergeOptions) (session : nat -> World)
    (sched : list event) (st : state) (e : error) :
  run World ask wait ctx options session sched (Merge options) = Some st ->
  at_ st = Returned e ->
  (e = ErrTimeout \/
   exists i o,
     Documents options !! i = Some o /\
     fst (Convert World ask wait ctx (clearPasswords o) (session i)) = inl e) /\
  ((forall i, failed World ask wait ctx options session i = false) ->
   e = ErrTimeout).
Proof.
  intros Hrun Hat.
  destruct (reachable_invariants _ ask wait ctx options session _ _ Hrun)
    as (_ & [_ Hbl] & _).
  rewrite Hat in Hbl.
  destruct Hbl as [->|(i & o & Ho & He)]; [split; [now left | reflexivity]|].
  assert (Hconv : fst (Convert World ask wait ctx o (session i)) = inl e).
  { unfold converted in He.
    destruct (fst (Convert World ask wait ctx o (session i))); simpl in He; congruence. }
  split.
  - right. unfold documents in Ho.
    change (map ?f ?l) with (f <$> l) in Ho. rewrite list_lookup_fmap in Ho.
    destruct (Documents options !! i) as [o'|] eqn:Ho'; [|discriminate].
    injection Ho as <-. eauto.
  - intros Hnone. specialize (Hnone i). unfold failed in Hnone.
    rewrite Ho, He in Hnone. discriminate.
Qed.

(** The statement above on the five documents of which one fails, with
    the select taking the error. *)
Lemma merge_returns_document_error_or_timeout_witness :
  exists st,
    run _ Replay.ask Replay.wait Caller fivePages (fun _ => Replay.blank)
      [Advance 0; Advance 2; Iterate OnRes; Iterate OnErr] (Merge fivePages)
    = Some st /\
    at_ st = Returned (External (Failure 1)) /\
    (External (Failure 1) = ErrTimeout \/
     exists i o,
       Documents fivePages !! i = Some o /\
       fst (Convert _ Replay.ask Replay.wait Caller (clearPasswords o) Replay.blank)
       = inl (External (Failure 1))).
Proof.
  assert (Hres : exists st,
             run _ Replay.ask Replay.wait Caller fivePages (fun _ => Replay.blank)
               [Advance 0; Advance 2; Iterate OnRes; Iterate OnErr] (Merge fivePages)
             = Some st /\
             at_ st = Returned (External (Failure 1))).
  { eexists. split; vm_compute; reflexivity. }
  destruct Hres as (st & Hrun & Hat).
  exists st. split; [exact Hrun|]. split; [exact Hat|].
  exact (proj1 (merge_returns_document_error_or_timeout _ Replay.ask Replay.wait
                  Caller fivePages (fun _ => Replay.blank) _ st _ Hrun Hat)).
Defined.

(** X25: a send of [forMerge] never blocks: in every state of every run,
    a goroutine that has not ended can take its next step, because both
    channels have room for one message per document. *)
Theorem forMerge_never_blocks
    (World : Type)
    (ask : forall R, Call R -> World -> (ext_error + R) * World)
    (wait : forall R, Wait R -> World -> R * World)
    (ctx : Context) (options : MergeOptions) (session : nat -> World)
    (sched : list event) (st : state) (i : nat) (p : pc) :
  run World ask wait ctx options session sched (Merge options) = Some st ->
  tasks st !! i = Some p ->
  p <> Finished ->
  is_Some (forMerge World ask wait ctx options session i st).
Proof.
  intros Hrun Hp Hne.
  destruct (reachable_invariants _ ask wait ctx options session _ _ Hrun)
    as ([Ht Hres Herr] & _ & _).
  assert (Hi : (i < capacity options)%nat).
  { rewrite <- Ht. now apply lookup_lt_Some in Hp. }
  destruct (lookup_lt_is_Some_2 (documents options) i Hi) as [o Ho].
  pose proof (ended_lt _ _ _ Hp Hne) as Hended.
  assert (Hroom : (length (cres st) <? capacity options)%nat = true).
  { apply Nat.ltb_lt. lia. }
  unfold forMerge. rewrite Hp, Ho.
  destruct p; [| |contradiction].
  - destruct (converted World ask wait ctx session i o) as [[err|] r].
    + pose proof (returned_lt _ _ Hp) as Hret.
      unfold sendErr.
      assert (Hroom' : (length (cerr st) <? capacity options)%nat = true).
      { apply Nat.ltb_lt. lia. }
      rewrite Hroom'. eauto.
    + unfold sendRes. rewrite Hroom. eauto.
  - unfold sendRes. rewrite Hroom. eauto.
Qed.

(** The statement above on the failed goroutine of the five, after all
    others have sent their results. *)
Lemma forMerge_never_blocks_witness :
  exists st,
    run _ Replay.ask Replay.wait Caller fivePages (fun _ => Replay.blank)
      [Advance 0; Advance 1; Advance 3; Advance 4; Advance 2] (Merge fivePages)
    = Some st /\
    tasks st !! 2%nat = Some Reported /\
    is_Some (forMerge _ Replay.ask Replay.wait Caller fivePages
               (fun _ => Replay.blank) 2 st).
Proof.
  eexists. split; [vm_compute; reflexivity|]. split; [reflexivity|].
  apply (forMerge_never_blocks _ Replay.ask Replay.wait Caller fivePages
           (fun _ => Replay.blank)
           [Advance 0; Advance 1; Advance 3; Advance 4; Advance 2] _ 2 Reported).
  - vm_compute. reflexivity.
  - reflexivity.
  - discriminate.
Defined.

(** X26: [api.Merge] is reached only after every goroutine has sent its
    result and every result has been received: all goroutines have ended
    and [cres] is empty. *)
Theorem merge_step_after_all_results
    (World : Type)
    (ask : forall R, Call R -> World -> (ext_error + R) * World)
    (wait : forall R, Wait R -> World -> R * World)
    (ctx : Context) (options : MergeOptions) (session : nat -> World)
    (sched : list event) (st : state) (parts : list bytes) :
  run World ask wait ctx options session sched (Merge options) = Some st ->
  at_ st = Merging parts ->
  cres st = [] /\
  forall i, (i < length (Documents options))%nat -> tasks st !! i = Some Finished.
Proof.
  intros Hrun Hat.
  pose proof (inv_run _ ask wait ctx options session _ _ _
                (inv_Merge _ ask wait ctx options session) Hrun) as Hinv.
  destruct (reachable_invariants _ ask wait ctx options session _ _ Hrun)
    as ([Ht Hres _] & _ & Hcount).
  unfold counted in Hcount. rewrite Hat in Hcount.
  destruct Hinv as [_ Hb _ _ Hslot Hc _].
  assert (HN : capacity options = length (Documents options)).
  { unfold capacity, documents. apply length_map. }
  split.
  - pose proof (ended_le (tasks st)) as Hle.
    destruct (cres st); [reflexivity|]. simpl in Hres. lia.
  - intros i Hi.
    destruct (filled_full (bufs st) i) as [b Hb']; [congruence | lia|].
    exact (proj2 (Hslot i b Hb')).
Qed.

(** The statement above on three documents, completed in the order 2, 0,
    1. *)
Lemma merge_step_after_all_results_witness :
  exists st parts,
    run _ Replay.ask Replay.wait Caller threePages (fun _ => Replay.blank)
      [Advance 2; Advance 0; Advance 1;
       Iterate OnRes; Iterate OnRes; Iterate OnRes; Iterate OnRes]
      (Merge threePages) = Some st /\
    at_ st = Merging parts /\
    cres st = [] /\ tasks st = [Finished; Finished; Finished].
Proof.
  assert (Hres : exists st,
             run _ Replay.ask Replay.wait Caller threePages (fun _ => Replay.blank)
               [Advance 2; Advance 0; Advance 1;
                Iterate OnRes; Iterate OnRes; Iterate OnRes; Iterate OnRes]
               (Merge threePages) = Some st /\
             (exists parts, at_ st = Merging parts) /\
             tasks st = [Finished; Finished; Finished]).
  { vm_compute. eauto. }
  destruct Hres as (st & Hrun & (parts & Hat) & Htasks).
  exists st, parts. repeat split; try assumption.
  exact (proj1 (merge_step_after_all_results _ Replay.ask Replay.wait Caller
                  threePages (fun _ => Replay.blank) _ st parts Hrun Hat)).
Defined.

(** X27: a merge of no documents waits for nothing, not even for the
    context: the first turn of the loop leaves it, whatever the select
    would have taken, and [api.Merge] is reached with no reader at all. *)
Theorem merge_of_nothing
    (World : Type)
    (ask : forall R, Call R -> World -> (ext_error + R) * World)
    (wait : forall R, Wait R -> World -> R * World)
    (ctx : Context) (options : MergeOptions) (session : nat -> World)
    (sel : selectCase) :
  Documents options = [] ->
  exists st,
    run World ask wait ctx options session [Iterate sel] (Merge options) = Some st /\
    at_ st = Merging [].
Proof.
  intros Hdocs. simpl. unfold mergeDocs, Merge, capacity, documents.
  rewrite Hdocs. simpl. eexists. split; reflexivity.
Qed.

(** The statement above on the options [NewMergeOptions] returns. *)
Lemma merge_of_nothing_witness :
  exists st,
    run _ Replay.ask Replay.wait Caller NewMergeOptions (fun _ => Replay.blank)
      [Iterate OnErr] (Merge NewMergeOptions) = Some st /\
    at_ st = Merging [].
Proof.
  apply (merge_of_nothing _ Replay.ask Replay.wait Caller NewMergeOptions
           (fun _ => Replay.blank) OnErr).
  reflexivity.
Defined.
